(** * Relative clustering validation: label matching and the validation protocol

    A shallow embedding of [reval/relative_validation.py]: the function
    [_kuhn_munkres_algorithm] and the three methods of the class
    [RelativeValidation].

    Modelling conventions.
    - A labeling is a one-dimensional integer [numpy.ndarray], a [list Z].
    - A Python [set] is a [gset]; [len(set(..))] is [size].
    - A finite Python [float] is an exact rational [Q]: rounding is not
      represented.  The mean of an empty list is [NaN] of [float];
      [zero_one_loss] refuses arrays without samples, so no other division
      by zero is reached, and the statements about rates are guarded by
      "at least one sample".
    - A raised exception is the [Raise] case of [result]; methods that
      mutate their object pass the object's state explicitly, together
      with the state of numpy's global random generator, which every
      capability may advance.
    - The assignment solver of scipy, numpy's global random generator and
      the clustering and classification objects are interfaces (type
      classes) carrying their documented contracts; [zero_one_loss],
      [np.mean], [np.argwhere] and [list.index] are written out from their
      documented behaviour. *)

From Stdlib Require Import QArith.
From stdpp Require Import gmap list strings.

(* stdpp's solvers clear hypotheses that may already be gone. *)
#[local] Set Warnings "-clear-no-such-hyp".

Local Open Scope string_scope.
Local Open Scope Z_scope.
Local Open Scope list_scope.
Local Open Scope nat_scope.

(** ** Python values, exceptions and results *)

(** The values the label matcher can receive.  Only [PyNdarray], a
    one-dimensional array of integers, passes the
    [isinstance(_, np.ndarray)] gate. *)
Inductive pyobj : Type :=
  | PyNdarray (a : list Z)
  | PyList (a : list Z)
  | PyTuple (a : list Z)
  | PyInt (z : Z)
  | PyNone.

Inductive pytype : Type :=
  | ty_ndarray | ty_list | ty_tuple | ty_int | ty_NoneType.

(** Python's [type(x)]. *)
Definition type_of (x : pyobj) : pytype :=
  match x with
  | PyNdarray _ => ty_ndarray
  | PyList _ => ty_list
  | PyTuple _ => ty_tuple
  | PyInt _ => ty_int
  | PyNone => ty_NoneType
  end.

(** What an f-string prints for a type object. *)
Definition type_str (t : pytype) : string :=
  match t with
  | ty_ndarray => "<class 'numpy.ndarray'>"
  | ty_list => "<class 'list'>"
  | ty_tuple => "<class 'tuple'>"
  | ty_int => "<class 'int'>"
  | ty_NoneType => "<class 'NoneType'>"
  end.

(** [isinstance(x, np.ndarray)] *)
Definition is_ndarray (x : pyobj) : bool :=
  match x with PyNdarray _ => true | _ => false end.

Inductive exn : Type :=
  | TypeError (msg : string)
  | ValueError (msg : string).

Inductive result (A : Type) : Type :=
  | Ok (a : A)
  | Raise (e : exn).
Arguments Ok {A} a.
Arguments Raise {A} e.

(** The exception monad, with stdpp's [x ← r; k] notation. *)
#[export] Instance result_ret : MRet result := @Ok.
#[export] Instance result_bind : MBind result := λ A B k r,
  match r with Ok a => k a | Raise e => Raise e end.

(** [[f(x) for x in l]] where [f] may raise: the first exception wins. *)
Fixpoint rmap {A B} (f : A → result B) (l : list A) : result (list B) :=
  match l with
  | [] => Ok []
  | x :: l' => y ← f x; ys ← rmap f l'; Ok (y :: ys)
  end.

(** ** numpy and builtin primitives used by the matcher *)

(** [a == v] for an array [a] and a scalar [v]: an array of booleans. *)
Definition eq_scalar (a : list Z) (v : Z) : list bool :=
  (λ x, bool_decide (x = v)) <$> a.

(** [np.transpose(np.argwhere(mask))[0]]: the positions holding [True], in
    increasing order. *)
Fixpoint argwhere_from (k : nat) (mask : list bool) : list nat :=
  match mask with
  | [] => []
  | b :: mask' => (if b then [k] else []) ++ argwhere_from (S k) mask'
  end.

Definition argwhere (mask : list bool) : list nat := argwhere_from 0 mask.

(** [set(l)] *)
Definition pyset `{Countable A} (l : list A) : gset A := list_to_set l.

(** [np.zeros((r, c))] *)
Definition np_zeros (r c : nat) : list (list Q) :=
  replicate r (replicate c 0%Q).

(** [m[i, j] = w].  Out of range numpy raises [IndexError] and this update
    does nothing; the matcher only writes at indices below [nclass]. *)
Definition mset (m : list (list Q)) (i j : nat) (w : Q) : list (list Q) :=
  alter (λ row, <[j := w]> row) i m.

(** [m[i, j]] *)
Definition mget (m : list (list Q)) (i j : nat) : option Q :=
  m !! i ≫= λ row, row !! j.

(** [l.index(i)]: the position of the first element equal to [i], or
    [ValueError]; its message starts with the value looked up, written [x]
    here. *)
Fixpoint list_index_from (k : nat) (l : list nat) (i : Z) : option nat :=
  match l with
  | [] => None
  | x :: l' => if bool_decide (Z.of_nat x = i) then Some k
               else list_index_from (S k) l' i
  end.

Definition list_index (l : list nat) (i : Z) : result Z :=
  match list_index_from 0 l i with
  | Some k => Ok (Z.of_nat k)
  | None => Raise (ValueError "x is not in list")
  end.

(** ** The assignment solver *)

(** [cost_matrix[row_ind, col_ind].sum()] *)
Definition total_cost (m : list (list Q)) (rows cols : list nat) : Q :=
  foldr Qplus 0%Q
    ((λ rc : nat * nat, default 0%Q (mget m rc.1 rc.2)) <$> zip rows cols).

Definition is_square (n : nat) (m : list (list Q)) : Prop :=
  length m = n ∧ Forall (λ row, length row = n) m.

(** [scipy.optimize.linear_sum_assignment] on a square cost matrix: the row
    indices come back sorted, the column indices are a permutation, and the
    total cost is minimal among all assignments. *)
Class AssignmentSolver := {
  linear_sum_assignment : list (list Q) → list nat * list nat;
  lsa_row_ind n m :
    is_square n m → (linear_sum_assignment m).1 = seq 0 n;
  lsa_col_ind n m :
    is_square n m → (linear_sum_assignment m).2 ≡ₚ seq 0 n;
  lsa_optimal n m c :
    is_square n m → c ≡ₚ seq 0 n →
    (total_cost m (seq 0 n) (linear_sum_assignment m).2
       <= total_cost m (seq 0 n) c)%Q
}.

(** ** The label matcher *)

(** [len(set(A).intersection(set(B)))] for the two index arrays of a pair
    of labels. *)
Definition n_intersec (true_lab pred_lab : list Z) (lab plab : nat) : nat :=
  size (pyset (argwhere (eq_scalar true_lab (Z.of_nat lab)))
        ∩ pyset (argwhere (eq_scalar pred_lab (Z.of_nat plab)))).

(** [(nobs - n_intersec) / nobs].  The loops run this only when
    [nclass > 0], hence [nobs > 0]. *)
Definition weight (nobs n : nat) : Q :=
  (inject_Z (Z.of_nat nobs - Z.of_nat n) / inject_Z (Z.of_nat nobs))%Q.

(** The body of the inner loop, for one pair [lab <= plab]. *)
Definition cost_step (true_lab pred_lab : list Z) (nobs lab : nat)
    (wmat : list (list Q)) (plab : nat) : list (list Q) :=
  let w := weight nobs (n_intersec true_lab pred_lab lab plab) in
  if bool_decide (lab = plab) then mset wmat lab plab w
  else
    let wmat := mset wmat lab plab w in
    let w := weight nobs (n_intersec true_lab pred_lab plab lab) in
    mset wmat plab lab w.

(** [for plab in range(lab, nclass)] *)
Definition cost_row (true_lab pred_lab : list Z) (nclass nobs : nat)
    (wmat : list (list Q)) (lab : nat) : list (list Q) :=
  foldl (cost_step true_lab pred_lab nobs lab) wmat (seq lab (nclass - lab)).

(** The cost matrix [wmat] after both loops. *)
Definition cost_matrix (true_lab pred_lab : list Z) : list (list Q) :=
  let nclass := size (pyset true_lab) in
  let nobs := length true_lab in
  foldl (cost_row true_lab pred_lab nclass nobs)
        (np_zeros nclass nclass) (seq 0 nclass).

Definition type_error_msg (true_lab pred_lab : pyobj) : string :=
  ("input variables should be (np.ndarray, np.ndarray) not ("
     ++ type_str (type_of true_lab) ++ ", "
     ++ type_str (type_of pred_lab) ++ ")")%string.

Definition _kuhn_munkres_algorithm `{AssignmentSolver}
    (true_lab pred_lab : pyobj) : result (list Z) :=
  match true_lab, pred_lab with
  | PyNdarray t, PyNdarray p =>
      let wmat := cost_matrix t p in
      let new_pred_lab := (linear_sum_assignment wmat).2 in
      rmap (list_index new_pred_lab) p
  | _, _ => Raise (TypeError (type_error_msg true_lab pred_lab))
  end.

(** ** scikit-learn and numpy scoring primitives *)

(** A numpy float: a number, or NaN. *)
Inductive float : Type :=
  | Finite (q : Q)
  | NaN.

(** [np.mean(l)]: the sum over the length, NaN for an empty list. *)
Definition np_mean (l : list Q) : float :=
  match l with
  | [] => NaN
  | _ :: _ => Finite (foldr Qplus 0 l / inject_Z (Z.of_nat (length l)))%Q
  end.

(** [accuracy_score(y_true, y_pred)]: the fraction of positions where
    [y_true == y_pred].  [zero_one_loss] calls it on at least one sample. *)
Definition accuracy_score (y_true y_pred : list Z) : Q :=
  (foldr Qplus 0
     ((λ yy : Z * Z, if bool_decide (yy.1 = yy.2) then 1 else 0)
        <$> zip y_true y_pred)
   / inject_Z (Z.of_nat (length (zip y_true y_pred))))%Q.

(** [zero_one_loss(y_true, y_pred)] is [1 - accuracy_score].  scikit-learn
    first validates its inputs: arrays of different lengths and arrays
    without any sample are refused with a [ValueError] (messages
    abridged). *)
Definition zero_one_loss (y_true y_pred : list Z) : result Q :=
  if bool_decide (length y_true = length y_pred) then
    match y_true with
    | [] => Raise (ValueError
                     "Found array with 0 sample(s) while a minimum of 1 is required")
    | _ :: _ => Ok (1 - accuracy_score y_true y_pred)%Q
    end
  else Raise (ValueError
                "Found input variables with inconsistent numbers of samples").

(** ** The capabilities the validator is configured with *)

(** A data set is an array of shape [(n_samples, n_features)]. *)
Class Dataset (X : Type) := n_samples : X → nat.

(** A clustering object: [fit_predict] refits the object and returns one
    label per sample.  Like every capability it runs in the process and
    may draw from numpy's global generator, whose state [G] it receives
    and hands back.  (An exception raised inside a capability ends the
    caller as well; the contract below is that of a call that returns.) *)
Class Clusterer (K X G : Type) `{Dataset X} := {
  fit_predict : K → X → G → K * list Z * G;
  fit_predict_length k data g :
    length (fit_predict k data g).1.2 = n_samples data
}.

(** A classification object: [fit] refits the object and returns it (the
    returned handle and the object are one state); [predict] reads the
    fitted object and returns one label per sample. *)
Class Classifier (S X G : Type) `{Dataset X} := {
  fit : S → X → list Z → G → S * G;
  predict : S → X → G → list Z * G;
  predict_length s data g : length (predict s data g).1 = n_samples data
}.

(** numpy's process-wide random generator: [np.random.seed] sets its state,
    [np.random.permutation] returns a shuffled copy and advances it. *)
Class RandomState (G : Type) := {
  np_random_seed : Z → G;
  np_random_permutation : G → list Z → G * list Z;
  np_random_permutation_perm g a : (np_random_permutation g a).2 ≡ₚ a
}.

(** ** The class [RelativeValidation] *)

Record RelativeValidation (S K : Type) := {
  class_method : S;
  clust_method : K;
  nrand : nat
}.
Arguments class_method {S K} _.
Arguments clust_method {S K} _.
Arguments nrand {S K} _.

(** [RelativeValidation.__init__(self, s, c, nrand)] *)
Definition __init__ {S K : Type} (s : S) (c : K) (nrand : nat)
    : RelativeValidation S K :=
  {| class_method := s; clust_method := c; nrand := nrand |}.

(** Computations that may raise and that mutate a state: the state reached
    when the exception is raised is kept. *)
Definition py (St A : Type) : Type := St → result A * St.

#[export] Instance py_ret {St} : MRet (py St) := λ A a st, (Ok a, st).
#[export] Instance py_bind {St} : MBind (py St) := λ A B k c st,
  match c st with
  | (Ok a, st') => k a st'
  | (Raise e, st') => (Raise e, st')
  end.

Definition lift {St A} (r : result A) : py St A := λ st, (r, st).

(** The state of a method call is numpy's global generator together with
    the validator object [self]. *)
Section validator.
Context {S K X G : Type}.
Context `{!Dataset X, !Clusterer K X G, !Classifier S X G, !RandomState G}.
Context `{!AssignmentSolver}.

(** [self.clust_method.fit_predict(data)] *)
Definition call_fit_predict (data : X)
    : py (G * RelativeValidation S K) (list Z) := λ st,
  let r := fit_predict (clust_method st.2) data st.1 in
  (Ok r.1.2, (r.2, {| class_method := class_method st.2;
                      clust_method := r.1.1;
                      nrand := nrand st.2 |})).

(** [self.class_method.fit(data, labels)] *)
Definition call_fit (data : X) (labels : list Z)
    : py (G * RelativeValidation S K) S := λ st,
  let r := fit (class_method st.2) data labels st.1 in
  (Ok r.1, (r.2, {| class_method := r.1;
                    clust_method := clust_method st.2;
                    nrand := nrand st.2 |})).

(** [self.class_method.predict(data)] *)
Definition call_predict (data : X)
    : py (G * RelativeValidation S K) (list Z) := λ st,
  let r := predict (class_method st.2) data st.1 in
  (Ok r.1, (r.2, st.2)).

(** [model.predict(data)] for a fitted model handed over by the caller. *)
Definition model_predict (model : S) (data : X)
    : py (G * RelativeValidation S K) (list Z) := λ st,
  let r := predict model data st.1 in
  (Ok r.1, (r.2, st.2)).

Definition train (train_data : X)
    : py (G * RelativeValidation S K) (Q * S * list Z) :=
  clustlab_tr ← call_fit_predict train_data;
  fitclass_tr ← call_fit train_data clustlab_tr;
  classlab_tr ← model_predict fitclass_tr train_data;
  misclass ← lift (zero_one_loss clustlab_tr classlab_tr);
  mret (misclass, fitclass_tr, clustlab_tr).

Definition test (test_data : X) (fit_model : S)
    : py (G * RelativeValidation S K) (Q * list Z) :=
  clustlab_ts ← call_fit_predict test_data;
  classlab_ts ← model_predict fit_model test_data;
  bestperm ← lift (_kuhn_munkres_algorithm (PyNdarray clustlab_ts)
                                           (PyNdarray classlab_ts));
  misclass ← lift (zero_one_loss clustlab_ts bestperm);
  mret (misclass, clustlab_ts).

(** [[np.random.permutation(train_labels) for _ in range(n)]] *)
Fixpoint draw_permutations (n : nat) (train_labels : list Z) (g : G)
    : list (list Z) * G :=
  match n with
  | 0 => ([], g)
  | Datatypes.S n' =>
      let r := np_random_permutation g train_labels in
      let rs := draw_permutations n' train_labels r.1 in
      (r.2 :: rs.1, rs.2)
  end.

(** [for lab in shuf_tr: ...], threading the two score lists. *)
Fixpoint rndlabels_loop (train_data test_data : X) (test_labels : list Z)
    (shuf_tr : list (list Z)) (misclass_tr misclass_ts : list Q)
    : py (G * RelativeValidation S K) (list Q * list Q) :=
  match shuf_tr with
  | [] => mret (misclass_tr, misclass_ts)
  | lab :: shuf_tr' =>
      _ ← call_fit train_data lab;
      classlab_tr ← call_predict train_data;
      tr ← lift (zero_one_loss lab classlab_tr);
      classlab_ts ← call_predict test_data;
      bestperm ← lift (_kuhn_munkres_algorithm (PyNdarray test_labels)
                                               (PyNdarray classlab_ts));
      ts ← lift (zero_one_loss test_labels bestperm);
      rndlabels_loop train_data test_data test_labels shuf_tr'
                     (misclass_tr ++ [tr]) (misclass_ts ++ [ts])
  end.

Definition rndlabels_traineval (train_data test_data : X)
    (train_labels test_labels : list Z)
    : py (G * RelativeValidation S K) (float * float) := λ st,
  let g := np_random_seed 0 in
  let shuf_tr := draw_permutations (nrand st.2) train_labels g in
  match rndlabels_loop train_data test_data test_labels shuf_tr.1 [] []
                       (shuf_tr.2, st.2)
  with
  | (Ok scores, st') => (Ok (np_mean scores.1, np_mean scores.2), st')
  | (Raise e, st') => (Raise e, st')
  end.
End validator.

(** ** Notions used to state the properties *)

(** The number of samples carrying the pair of labels [(i, j)]. *)
Definition pair_count (tp : list (Z * Z)) (i j : Z) : nat :=
  length (filter (λ e : Z * Z, e.1 = i ∧ e.2 = j) tp).

(** The number of samples on which an assignment, given as the list of the
    pairs (row [rows !! k], column [cols !! k]), makes both labelings
    agree. *)
Definition agree (tp : list (Z * Z)) (rows cols : list nat) : nat :=
  sum_list ((λ rc : nat * nat, pair_count tp (Z.of_nat rc.1) (Z.of_nat rc.2))
              <$> zip rows cols).

(** The relabeling [new_pred_lab.index(x)] as a total function. *)
Definition index_of (c : list nat) (x : Z) : Z :=
  match list_index_from 0 c x with
  | Some k => Z.of_nat k
  | None => (-1)%Z
  end.

(** The number of positions where two arrays agree. *)
Definition matches (a b : list Z) : nat :=
  length (filter (λ e : Z * Z, e.1 = e.2) (zip a b)).

(** [nclass = len(set(true_lab))] *)
Definition nclass (true_lab : list Z) : nat := size (pyset true_lab).

(** Every label of [l] is one of [0 .. n-1]. *)
Definition in_universe (n : nat) (l : list Z) : Prop :=
  Forall (λ x : Z, (0 ≤ x < Z.of_nat n)%Z) l.

(** [σ] is a bijection of the label set [{0 .. n-1}]. *)
Definition bijection_on (n : nat) (σ : Z → Z) : Prop :=
  (∀ x : Z, (0 ≤ x < Z.of_nat n)%Z → (0 ≤ σ x < Z.of_nat n)%Z)
  ∧ (∀ x y : Z, (0 ≤ x < Z.of_nat n)%Z → (0 ≤ y < Z.of_nat n)%Z →
       σ x = σ y → x = y).

(** The values of [σ] on [0 .. n-1], as a list. *)
Definition images (n : nat) (σ : Z → Z) : list nat :=
  (λ j : nat, Z.to_nat (σ (Z.of_nat j))) <$> seq 0 n.

(** The inverse of a permutation given as a list. *)
Definition inverse_assignment (c : list nat) : list nat :=
  (λ i : nat, default 0 (list_index_from 0 c (Z.of_nat i)))
    <$> seq 0 (length c).

(** The column indices chosen by the solver for a pair of labelings. *)
Definition assignment `{!AssignmentSolver} (t p : list Z) : list nat :=
  (linear_sum_assignment (cost_matrix t p)).2.

(** The number of samples [s] with [true_lab[s] = i] and [pred_lab[s] = j],
    counted sample by sample. *)
Definition spec_intersection (true_lab pred_lab : list Z) (i j : Z) : nat :=
  length (filter (λ s : nat, true_lab !! s = Some i ∧ pred_lab !! s = Some j)
                 (seq 0 (length true_lab))).

(** The cost-matrix entry as the specification writes it:
    [(n_samples − |{s : true_lab[s]=i} ∩ {s : pred_lab[s]=j}|) / n_samples]. *)
Definition spec_cost (true_lab pred_lab : list Z) (i j : nat) : Q :=
  (inject_Z (Z.of_nat (length true_lab)
             - Z.of_nat (spec_intersection true_lab pred_lab
                           (Z.of_nat i) (Z.of_nat j)))
   / inject_Z (Z.of_nat (length true_lab)))%Q.

(** The number of positions where two arrays differ. *)
Definition mismatches (a b : list Z) : nat :=
  length (filter (λ e : Z * Z, e.1 ≠ e.2) (zip a b)).

(** The plain 0/1 disagreement: the fraction of samples on which two
    labelings differ. *)
Definition spec_disagreement_rate (a b : list Z) : Q :=
  (inject_Z (Z.of_nat (mismatches a b)) / inject_Z (Z.of_nat (length a)))%Q.

(** Two outcomes of [zero_one_loss] that report the same rate, or raise
    the same exception. *)
Definition same_loss (r r' : result Q) : Prop :=
  match r, r' with
  | Ok d, Ok d' => (d == d')%Q
  | Raise e, Raise e' => e = e'
  | _, _ => False
  end.


(** ** Reference instances

    Small executable instances of the interfaces, used to run the model on
    concrete inputs. *)

(** An exhaustive assignment solver: the cheapest of all permutations of
    the column indices, the earliest one on ties. *)
Definition cheaper (m : list (list Q)) (rows : list nat) (best c : list nat)
    : list nat :=
  if Qle_bool (total_cost m rows best) (total_cost m rows c) then best else c.

Definition exhaustive_assignment (m : list (list Q)) : list nat * list nat :=
  let rows := seq 0 (length m) in
  (rows, foldl (cheaper m rows) rows (permutations rows)).

Module Demo.

(** Samples are integers.  The clusterer splits the data at the midpoint of
    its range: label [0] at or below it, label [1] above. *)
Definition midpoint_labels (data : list Z) : list Z :=
  let lo := foldr Z.min (hd 0%Z data) data in
  let hi := foldr Z.max (hd 0%Z data) data in
  (λ x : Z, if bool_decide (2 * x ≤ lo + hi)%Z then 0%Z else 1%Z) <$> data.

#[export] Instance list_dataset : Dataset (list Z) := length.

#[export] Program Instance midpoint_clusterer {G : Type}
  : Clusterer unit (list Z) G := {|
  fit_predict _ data g := ((), midpoint_labels data, g)
|}.
Next Obligation. intros; apply length_fmap. Qed.

(** The classifier memorises its training pairs; an unseen sample gets the
    label [0]. *)
Definition lookup_label (table : list (Z * Z)) (x : Z) : Z :=
  match List.find (λ e : Z * Z, bool_decide (e.1 = x)) table with
  | Some e => e.2
  | None => 0%Z
  end.

#[export] Program Instance table_classifier {G : Type}
  : Classifier (list (Z * Z)) (list Z) G := {|
  fit _ data labels g := (zip data labels, g);
  predict table data g := (lookup_label table <$> data, g)
|}.
Next Obligation. intros; apply length_fmap. Qed.

(** A generator whose state counts the draws; a draw reverses the array on
    even counts. *)
#[export] Program Instance toggle_random : RandomState nat := {|
  np_random_seed z := Z.to_nat z;
  np_random_permutation g a :=
    (Datatypes.S g, if Nat.even g then reverse a else a)
|}.
Next Obligation.
  intros g a; simpl. destruct (Nat.even g); [apply reverse_Permutation|done].
Qed.

(** A validator over these capabilities, with three randomisation rounds
    and a classifier that has not seen any data, and the same validator
    around a classifier that has. *)
Definition fresh_validator : RelativeValidation (list (Z * Z)) unit :=
  {| class_method := []; clust_method := (); nrand := 3 |}.

End Demo.

(** * Properties *)

(** ** The exhaustive solver meets the solver contract *)

Lemma foldl_cheaper_spec m rows best cands :
  (foldl (cheaper m rows) best cands = best
   ∨ foldl (cheaper m rows) best cands ∈ cands)
  ∧ (total_cost m rows (foldl (cheaper m rows) best cands)
       <= total_cost m rows best)%Q
  ∧ ∀ c, c ∈ cands →
      (total_cost m rows (foldl (cheaper m rows) best cands)
         <= total_cost m rows c)%Q.
Proof.
  revert best. induction cands as [|c cands IH]; intros best.
  - split; [by left|]. split; [apply Qle_refl|]. intros c Hc.
    by apply elem_of_nil in Hc.
  - cbn [foldl]. destruct (IH (cheaper m rows best c)) as (Hmem & Hle & Hall).
    assert ((total_cost m rows (cheaper m rows best c)
               <= total_cost m rows best)%Q
            ∧ (total_cost m rows (cheaper m rows best c)
                 <= total_cost m rows c)%Q
            ∧ (cheaper m rows best c = best ∨ cheaper m rows best c = c))
      as (Hb & Hc & Hch).
    { unfold cheaper.
      destruct (Qle_bool (total_cost m rows best) (total_cost m rows c)) eqn:E.
      - apply Qle_bool_iff in E. split; [apply Qle_refl|]. by split; [|left].
      - split; [|split; [apply Qle_refl|by right]].
        apply Qlt_le_weak, Qnot_le_lt. intros Hle'.
        apply Qle_bool_iff in Hle'. congruence. }
    split; [|split].
    + destruct Hmem as [->|Hmem]; [|right; by right].
      destruct Hch as [->| ->]; [by left|right; by left].
    + eapply Qle_trans; [exact Hle|exact Hb].
    + intros c' [->|Hc']%elem_of_cons; [|by apply Hall].
      eapply Qle_trans; [exact Hle|exact Hc].
Qed.

Lemma exhaustive_row_ind n m :
  is_square n m → (exhaustive_assignment m).1 = seq 0 n.
Proof. by intros [<- _]. Qed.

Lemma exhaustive_col_ind n m :
  is_square n m → (exhaustive_assignment m).2 ≡ₚ seq 0 n.
Proof.
  intros [<- _]. unfold exhaustive_assignment. cbn [snd].
  destruct (foldl_cheaper_spec m (seq 0 (length m)) (seq 0 (length m))
              (permutations (seq 0 (length m)))) as ([->|Hin] & _); [done|].
  by apply permutations_Permutation in Hin.
Qed.

Lemma exhaustive_optimal n m c :
  is_square n m → c ≡ₚ seq 0 n →
  (total_cost m (seq 0 n) (exhaustive_assignment m).2
     <= total_cost m (seq 0 n) c)%Q.
Proof.
  intros [<- _] Hc. unfold exhaustive_assignment. cbn [snd].
  destruct (foldl_cheaper_spec m (seq 0 (length m)) (seq 0 (length m))
              (permutations (seq 0 (length m)))) as (_ & _ & Hall).
  apply Hall. by apply permutations_Permutation.
Qed.

#[export] Instance exhaustive_solver : AssignmentSolver := {|
  linear_sum_assignment := exhaustive_assignment;
  lsa_row_ind := exhaustive_row_ind;
  lsa_col_ind := exhaustive_col_ind;
  lsa_optimal := exhaustive_optimal
|}.

(** ** Index arrays and intersection sizes *)

Lemma elem_of_argwhere_from k mask s :
  s ∈ argwhere_from k mask ↔ k ≤ s ∧ mask !! (s - k) = Some true.
Proof.
  revert k. induction mask as [|b mask IH]; intros k; simpl.
  - rewrite elem_of_nil. naive_solver.
  - rewrite elem_of_app, IH. destruct (decide (s = k)) as [->|Hne].
    + replace (k - k) with 0 by lia. simpl. split.
      * intros [Hb|[? _]]; [|lia]. destruct b; [done|by apply elem_of_nil in Hb].
      * intros [_ [= ->]]. left. by apply list_elem_of_singleton.
    + split.
      * intros [Hb|[? Hm]].
        { destruct b; [by apply list_elem_of_singleton in Hb|by apply elem_of_nil in Hb]. }
        split; [lia|].
        replace (s - k) with (Datatypes.S (s - Datatypes.S k)) by lia. done.
      * intros [? Hm]. right. split; [lia|].
        replace (s - k) with (Datatypes.S (s - Datatypes.S k)) in Hm by lia. done.
Qed.

Lemma argwhere_from_lower k mask s : s ∈ argwhere_from k mask → k ≤ s.
Proof. rewrite elem_of_argwhere_from. tauto. Qed.

Lemma argwhere_from_nil k : argwhere_from k [] = [].
Proof. done. Qed.

Lemma argwhere_from_eq_cons k x t i :
  argwhere_from k (eq_scalar (x :: t) i)
  = (if bool_decide (x = i) then [k] else [])
      ++ argwhere_from (Datatypes.S k) (eq_scalar t i).
Proof. done. Qed.

(** The intersection of the two index sets counts the samples that carry
    both labels. *)
Lemma size_index_sets_from k (t p : list Z) (i j : Z) :
  size (pyset (argwhere_from k (eq_scalar t i))
        ∩ pyset (argwhere_from k (eq_scalar p j)))
  = pair_count (zip t p) i j.
Proof.
  unfold pyset, pair_count.
  revert k p. induction t as [|x t IH]; intros k [|y p].
  - change (eq_scalar [] i) with (@nil bool).
    by rewrite argwhere_from_nil, list_to_set_nil, intersection_empty_l_L, size_empty.
  - change (eq_scalar [] i) with (@nil bool).
    by rewrite argwhere_from_nil, list_to_set_nil, intersection_empty_l_L, size_empty.
  - change (eq_scalar [] j) with (@nil bool).
    by rewrite argwhere_from_nil, list_to_set_nil, intersection_empty_r_L, size_empty.
  - rewrite !argwhere_from_eq_cons, !list_to_set_app_L.
    change (zip (x :: t) (y :: p)) with ((x, y) :: zip t p).
    rewrite filter_cons. specialize (IH (Datatypes.S k) p).
    set (A := list_to_set (argwhere_from (Datatypes.S k) (eq_scalar t i))) in *.
    set (B := list_to_set (argwhere_from (Datatypes.S k) (eq_scalar p j))) in *.
    assert (HA : k ∉ A).
    { intros HkA%elem_of_list_to_set%argwhere_from_lower. lia. }
    assert (HB : k ∉ B).
    { intros HkB%elem_of_list_to_set%argwhere_from_lower. lia. }
    do 2 case_bool_decide; case_decide as Hd; cbn [fst snd] in Hd;
      try (exfalso; naive_solver).
    + rewrite !list_to_set_singleton_L.
      replace (({[k]} ∪ A) ∩ ({[k]} ∪ B)) with ({[k]} ∪ (A ∩ B))
        by set_solver.
      rewrite size_union by set_solver. by rewrite size_singleton, IH.
    + rewrite !list_to_set_singleton_L, list_to_set_nil.
      replace (({[k]} ∪ A) ∩ (∅ ∪ B)) with (A ∩ B) by set_solver. done.
    + rewrite !list_to_set_singleton_L, list_to_set_nil.
      replace ((∅ ∪ A) ∩ ({[k]} ∪ B)) with (A ∩ B) by set_solver. done.
    + rewrite !list_to_set_nil.
      replace ((∅ ∪ A) ∩ (∅ ∪ B)) with (A ∩ B) by set_solver. done.
Qed.

Lemma n_intersec_pair_count (t p : list Z) (lab plab : nat) :
  n_intersec t p lab plab = pair_count (zip t p) (Z.of_nat lab) (Z.of_nat plab).
Proof. apply size_index_sets_from. Qed.

Lemma pair_count_le_length tp i j : pair_count tp i j ≤ length tp.
Proof. apply length_filter. Qed.

Lemma n_intersec_le_nobs (t p : list Z) lab plab :
  n_intersec t p lab plab ≤ length t.
Proof.
  rewrite n_intersec_pair_count.
  etrans; [apply pair_count_le_length|]. rewrite length_zip. lia.
Qed.

(** ** The cost matrix *)

Lemma np_zeros_square n : is_square n (np_zeros n n).
Proof.
  split; [apply length_replicate|].
  apply Forall_replicate, length_replicate.
Qed.

Lemma mset_square n m i j w : is_square n m → is_square n (mset m i j w).
Proof.
  intros [Hlen Hrows]. split; unfold mset.
  - by rewrite length_alter.
  - apply Forall_alter; [done|]. intros row _ Hrow. by rewrite length_insert.
Qed.

Lemma mget_mset n m i j w i' j' :
  is_square n m → i < n → j < n →
  mget (mset m i j w) i' j'
  = if decide (i = i' ∧ j = j') then Some w else mget m i' j'.
Proof.
  intros [Hlen Hrows] Hi Hj. unfold mget, mset.
  destruct (decide (i = i')) as [<-|Hne].
  - rewrite list_lookup_alter_eq.
    destruct (lookup_lt_is_Some_2 m i) as [row Hrow]; [lia|].
    rewrite Hrow. simpl.
    assert (length row = n) as Hrl.
    { eapply (proj1 (Forall_forall _ _) Hrows), list_elem_of_lookup_2, Hrow. }
    destruct (decide (j = j')) as [<-|Hnej].
    + rewrite decide_True by done. apply list_lookup_insert_eq. lia.
    + rewrite decide_False by naive_solver. by apply list_lookup_insert_ne.
  - rewrite list_lookup_alter_ne by done. rewrite decide_False by naive_solver.
    done.
Qed.

Section cost_matrix.
Variables (true_lab pred_lab : list Z) (n nobs : nat).

Let W (i j : nat) : Q := weight nobs (n_intersec true_lab pred_lab i j).

Lemma cost_step_spec m lab plab :
  is_square n m → lab < n → plab < n →
  is_square n (cost_step true_lab pred_lab nobs lab m plab)
  ∧ ∀ i j, mget (cost_step true_lab pred_lab nobs lab m plab) i j
           = if decide ((i = lab ∧ j = plab) ∨ (i = plab ∧ j = lab))
             then Some (W i j) else mget m i j.
Proof.
  intros Hsq Hlab Hplab. unfold cost_step. case_bool_decide as Heq.
  - subst plab. split; [by apply mset_square|]. intros i j.
    rewrite (mget_mset n) by done.
    repeat case_decide; try done; naive_solver.
  - split; [by do 2 apply mset_square|]. intros i j.
    rewrite (mget_mset n) by (try apply mset_square; done).
    rewrite (mget_mset n) by done.
    repeat case_decide; try done; try naive_solver.
Qed.

(** The inner loop over [range(lab, lab + k)] fills the row and the column
    of [lab] from the diagonal on. *)
Lemma cost_inner_spec m lab k :
  is_square n m → lab + k ≤ n →
  is_square n (foldl (cost_step true_lab pred_lab nobs lab) m (seq lab k))
  ∧ ∀ i j, mget (foldl (cost_step true_lab pred_lab nobs lab) m (seq lab k)) i j
           = if decide ((i = lab ∧ lab ≤ j < lab + k)
                        ∨ (j = lab ∧ lab ≤ i < lab + k))
             then Some (W i j) else mget m i j.
Proof.
  intros Hsq. induction k as [|k IH]; intros Hk.
  - split; [done|]. intros i j. rewrite decide_False by lia. done.
  - destruct IH as [IHsq IHget]; [lia|].
    rewrite seq_S, foldl_app. cbn [foldl].
    destruct (cost_step_spec
                (foldl (cost_step true_lab pred_lab nobs lab) m (seq lab k))
                lab (lab + k)) as [Hsq' Hget']; [done|lia|lia|].
    split; [done|]. intros i j. rewrite Hget', IHget.
    repeat case_decide; try done; exfalso; lia.
Qed.

(** The outer loop over [range(k)] has filled every entry whose row or
    column is below [k]. *)
Lemma cost_outer_spec m k :
  is_square n m → k ≤ n →
  is_square n (foldl (cost_row true_lab pred_lab n nobs) m (seq 0 k))
  ∧ ∀ i j, i < n → j < n →
      mget (foldl (cost_row true_lab pred_lab n nobs) m (seq 0 k)) i j
      = if decide (i < k ∨ j < k) then Some (W i j) else mget m i j.
Proof.
  intros Hsq. induction k as [|k IH]; intros Hk.
  - split; [done|]. intros i j _ _. rewrite decide_False by lia. done.
  - destruct IH as [IHsq IHget]; [lia|].
    rewrite seq_S, foldl_app. cbn [foldl]. unfold cost_row at 1 3.
    destruct (cost_inner_spec
                (foldl (cost_row true_lab pred_lab n nobs) m (seq 0 k))
                k (n - k)) as [Hsq' Hget']; [done|lia|].
    split; [done|]. intros i j Hi Hj. rewrite Hget', IHget by done.
    repeat case_decide; try done; exfalso; lia.
Qed.
End cost_matrix.

Lemma cost_matrix_square t p : is_square (size (pyset t)) (cost_matrix t p).
Proof.
  unfold cost_matrix.
  by apply cost_outer_spec; [apply np_zeros_square|].
Qed.

Lemma cost_matrix_entry t p i j :
  i < size (pyset t) → j < size (pyset t) →
  mget (cost_matrix t p) i j = Some (weight (length t) (n_intersec t p i j)).
Proof.
  intros Hi Hj. unfold cost_matrix.
  destruct (cost_outer_spec t p (size (pyset t)) (length t)
              (np_zeros (size (pyset t)) (size (pyset t))) (size (pyset t)))
    as [_ Hget]; [apply np_zeros_square|done|].
  rewrite Hget by done. by rewrite decide_True by lia.
Qed.

(** ** Assignments and agreement counts *)

Lemma pair_count_cons e tp i j :
  pair_count (e :: tp) i j
  = (if decide (e.1 = i ∧ e.2 = j) then 1 else 0) + pair_count tp i j.
Proof.
  unfold pair_count. rewrite filter_cons. by case_decide.
Qed.

Lemma pair_count_nil i j : pair_count [] i j = 0.
Proof. done. Qed.

Lemma agree_nil rows cols : agree [] rows cols = 0.
Proof.
  unfold agree. induction (zip rows cols) as [|rc l IH]; [done|].
  rewrite fmap_cons. cbn [sum_list sum_list_with id]. by rewrite IH.
Qed.

Lemma agree_cons e tp rows cols :
  agree (e :: tp) rows cols = agree [e] rows cols + agree tp rows cols.
Proof.
  unfold agree. induction (zip rows cols) as [|rc l IH]; [done|].
  rewrite !fmap_cons. cbn [sum_list sum_list_with].
  rewrite IH, !pair_count_cons, pair_count_nil. unfold id. lia.
Qed.

Lemma list_index_from_lower a c x k : list_index_from a c x = Some k → a ≤ k.
Proof.
  revert a. induction c as [|y c IH]; intros a; simpl; [done|].
  case_bool_decide; [intros [= ->]; lia|]. intros Hk%IH. lia.
Qed.

Lemma list_index_from_None a c x :
  list_index_from a c x = None ↔ ∀ y, y ∈ c → Z.of_nat y ≠ x.
Proof.
  revert a. induction c as [|y c IH]; intros a; simpl.
  - split; [|done]. intros _ y Hy. by apply elem_of_nil in Hy.
  - case_bool_decide as Hy.
    + split; [done|]. intros Hc. destruct (Hc y); [left|done].
    + rewrite IH. split.
      * intros Hc z [->|Hz]%elem_of_cons; auto.
      * intros Hc z Hz. apply Hc. by right.
Qed.

Lemma list_index_from_lookup a c x k :
  list_index_from a c x = Some k →
  ∃ y, c !! (k - a) = Some y ∧ Z.of_nat y = x.
Proof.
  revert a. induction c as [|y c IH]; intros a; simpl; [done|].
  case_bool_decide as Hy.
  - intros [= ->]. exists y. by replace (k - k) with 0 by lia.
  - intros Hk. pose proof (list_index_from_lower _ _ _ _ Hk).
    destruct (IH _ Hk) as (z & Hz & Hzx). exists z. split; [|done].
    by replace (k - a) with (Datatypes.S (k - Datatypes.S a)) by lia.
Qed.

Lemma list_index_from_NoDup a c pos y :
  NoDup c → c !! pos = Some y →
  list_index_from a c (Z.of_nat y) = Some (a + pos).
Proof.
  intros Hnd. revert a pos. induction Hnd as [|z c Hz Hnd IH]; intros a pos.
  - done.
  - destruct pos as [|pos]; simpl.
    + intros [= ->]. rewrite bool_decide_eq_true_2 by done. f_equal. lia.
    + intros Hpos. rewrite bool_decide_eq_false_2.
      * rewrite (IH _ _ Hpos). f_equal. lia.
      * intros ->%(inj Z.of_nat). apply Hz. by eapply list_elem_of_lookup_2.
Qed.

(** One sample contributes to the agreement count of an assignment exactly
    when its true label is the row matched with its predicted label. *)
Lemma agree_single a c (e : Z * Z) :
  NoDup c →
  agree [e] (seq a (length c)) c
  = match list_index_from a c e.2 with
    | Some k => if decide (e.1 = Z.of_nat k) then 1 else 0
    | None => 0
    end.
Proof.
  intros Hnd. revert a. unfold agree.
  induction Hnd as [|y c Hy Hnd IH]; intros a; [done|].
  cbn [length seq zip zip_with fmap list_fmap sum_list sum_list_with
       list_index_from fst snd id].
  rewrite pair_count_cons, pair_count_nil.
  change (zip_with pair (seq (Datatypes.S a) (length c)) c)
    with (zip (seq (Datatypes.S a) (length c)) c).
  change (list_fmap _ _ ?f ?l) with (f <$> l).
  rewrite IH. cbn [fst snd length]. case_bool_decide as Hye.
  - assert (list_index_from (Datatypes.S a) c e.2 = None) as ->.
    { apply list_index_from_None. intros z Hz Hze.
      assert (z = y) as -> by lia. done. }
    repeat case_decide; try done; exfalso; naive_solver.
  - rewrite decide_False by naive_solver. done.
Qed.

Lemma matches_fmap (f : Z → Z) t p :
  matches t (f <$> p) = length (filter (λ e : Z * Z, e.1 = f e.2) (zip t p)).
Proof.
  unfold matches. revert p. induction t as [|x t IH]; intros [|y p]; try done.
  rewrite fmap_cons.
  change (zip (x :: t) (f y :: (f <$> p))) with ((x, f y) :: zip t (f <$> p)).
  change (zip (x :: t) (y :: p)) with ((x, y) :: zip t p).
  rewrite !filter_cons. cbn [fst snd].
  destruct (decide (x = f y)); cbn [length]; by rewrite IH.
Qed.

(** Relabeling through the assignment [c] makes the two labelings agree on
    as many samples as the assignment's agreement count. *)
Lemma filter_index_of_agree n c (tp : list (Z * Z)) :
  NoDup c → length c = n →
  Forall (λ e : Z * Z, is_Some (list_index_from 0 c e.2)) tp →
  length (filter (λ e : Z * Z, e.1 = index_of c e.2) tp)
  = agree tp (seq 0 n) c.
Proof.
  intros Hnd <-. induction 1 as [|e tp [k Hk] _ IH].
  - by rewrite agree_nil.
  - rewrite agree_cons, agree_single, filter_cons, <-IH by done.
    assert (index_of c e.2 = Z.of_nat k) as Hi by (unfold index_of; by rewrite Hk).
    rewrite Hk. case_decide as He; rewrite Hi in He.
    + by rewrite decide_True.
    + by rewrite decide_False.
Qed.

(** ** The inverse lookup *)

Lemma list_index_Some c x k :
  list_index_from 0 c x = Some k → list_index c x = Ok (Z.of_nat k).
Proof. unfold list_index. by intros ->. Qed.

Lemma list_index_None c x :
  list_index_from 0 c x = None →
  list_index c x = Raise (ValueError "x is not in list").
Proof. unfold list_index. by intros ->. Qed.

Lemma rmap_list_index_ok c p :
  Forall (λ x, is_Some (list_index_from 0 c x)) p →
  rmap (list_index c) p = Ok (index_of c <$> p).
Proof.
  induction 1 as [|x p [k Hk] _ IH]; [done|].
  cbn [rmap]. rewrite (list_index_Some _ _ _ Hk), IH. cbn.
  unfold index_of. by rewrite Hk.
Qed.

Lemma rmap_list_index_raise c p :
  Exists (λ x, list_index_from 0 c x = None) p →
  rmap (list_index c) p = Raise (ValueError "x is not in list").
Proof.
  induction p as [|x p IH]; intros Hex; [by apply Exists_nil in Hex|].
  cbn [rmap].
  destruct (list_index_from 0 c x) as [k|] eqn:Hk.
  - apply Exists_cons in Hex as [Hx|Hp]; [congruence|].
    by rewrite (list_index_Some _ _ _ Hk), IH.
  - by rewrite (list_index_None _ _ Hk).
Qed.

Lemma rmap_list_index_inv c p r :
  rmap (list_index c) p = Ok r →
  Forall (λ x, is_Some (list_index_from 0 c x)) p.
Proof.
  intros Hr. apply Forall_forall. intros x Hx.
  destruct (list_index_from 0 c x) as [k|] eqn:Hk; [by eexists|].
  rewrite rmap_list_index_raise in Hr; [done|].
  apply Exists_exists. eauto.
Qed.

(** ** Permutations of the column indices *)

Section assignments.
Context  (n : nat) (c : list nat) (Hc : c ≡ₚ seq 0 n).

Lemma assignment_NoDup : NoDup c.
Proof. rewrite Hc. apply NoDup_seq. Qed.

Lemma assignment_length : length c = n.
Proof. by rewrite Hc, length_seq. Qed.

Lemma assignment_elem_of x : x ∈ c ↔ x < n.
Proof. rewrite Hc, elem_of_seq. lia. Qed.

Lemma assignment_index_is_Some (x : Z) :
  (0 ≤ x < Z.of_nat n)%Z → is_Some (list_index_from 0 c x).
Proof.
  intros Hx. destruct (list_index_from 0 c x) as [k|] eqn:Hk; [by eexists|].
  exfalso. eapply list_index_from_None in Hk.
  - apply Hk. apply (Z2Nat.id x). lia.
  - apply assignment_elem_of. lia.
Qed.

Lemma assignment_index_None (x : Z) :
  ¬ (0 ≤ x < Z.of_nat n)%Z → list_index_from 0 c x = None.
Proof.
  intros Hx. apply list_index_from_None. intros y Hy%assignment_elem_of. lia.
Qed.
End assignments.

(** ** Total cost of an assignment on the cost matrix *)

Lemma total_cost_cost_matrix t p (rc : list (nat * nat)) :
  Forall (λ e : nat * nat, e.1 < size (pyset t) ∧ e.2 < size (pyset t)) rc →
  (foldr Qplus 0
     ((λ e : nat * nat, default 0 (mget (cost_matrix t p) e.1 e.2)) <$> rc)
   == inject_Z (Z.of_nat (length rc) * Z.of_nat (length t)
                - Z.of_nat (sum_list
                     ((λ e : nat * nat,
                         pair_count (zip t p) (Z.of_nat e.1) (Z.of_nat e.2))
                        <$> rc)))
      / inject_Z (Z.of_nat (length t)))%Q.
Proof.
  induction 1 as [|e rc [He1 He2] _ IH].
  - change (0 == inject_Z 0 / inject_Z (Z.of_nat (length t)))%Q.
    unfold Qdiv. by rewrite Qmult_0_l.
  - rewrite !fmap_cons. cbn [foldr sum_list sum_list_with length id].
    rewrite IH, cost_matrix_entry, n_intersec_pair_count by done.
    cbn [default]. unfold weight.
    set (N := pair_count (zip t p) (Z.of_nat e.1) (Z.of_nat e.2)).
    set (S := sum_list _).
    replace (Z.of_nat (Datatypes.S (length rc)) * Z.of_nat (length t)
             - Z.of_nat (N + S))%Z
      with ((Z.of_nat (length t) - Z.of_nat N)
            + (Z.of_nat (length rc) * Z.of_nat (length t) - Z.of_nat S))%Z
      by lia.
    rewrite inject_Z_plus. unfold Qdiv, id. ring.
Qed.

Lemma total_cost_agree t p c :
  c ≡ₚ seq 0 (size (pyset t)) →
  (total_cost (cost_matrix t p) (seq 0 (size (pyset t))) c
   == inject_Z (Z.of_nat (size (pyset t)) * Z.of_nat (length t)
                - Z.of_nat (agree (zip t p) (seq 0 (size (pyset t))) c))
      / inject_Z (Z.of_nat (length t)))%Q.
Proof.
  intros Hc. unfold total_cost, agree.
  rewrite total_cost_cost_matrix.
  - rewrite length_zip, length_seq, (assignment_length _ _ Hc), Nat.min_id.
    done.
  - apply Forall_forall. intros [i j] Hij. cbn [fst snd].
    split.
    + apply elem_of_zip_l in Hij. apply elem_of_seq in Hij. lia.
    + apply elem_of_zip_r in Hij. by apply (assignment_elem_of _ _ Hc).
Qed.

(** ** What the solver's optimum means for the labelings *)

Lemma pigeonhole_Permutation n (l : list nat) :
  NoDup l → length l = n → (∀ x, x ∈ l → x < n) → l ≡ₚ seq 0 n.
Proof.
  intros Hnd Hlen Hlt. apply submseteq_length_Permutation.
  - apply NoDup_submseteq; [done|]. intros x Hx%Hlt. apply elem_of_seq. lia.
  - rewrite length_seq. lia.
Qed.

Lemma images_Permutation n σ : bijection_on n σ → images n σ ≡ₚ seq 0 n.
Proof.
  intros [Hran Hinj]. apply pigeonhole_Permutation.
  - apply NoDup_fmap_2_strong; [|apply NoDup_seq].
    intros x y Hx%elem_of_seq Hy%elem_of_seq Hxy.
    assert (σ (Z.of_nat x) = σ (Z.of_nat y)) as Heq.
    { pose proof (Hran (Z.of_nat x)). pose proof (Hran (Z.of_nat y)). lia. }
    apply Hinj in Heq; lia.
  - unfold images. by rewrite length_fmap, length_seq.
  - intros x (j & -> & Hj%elem_of_seq)%list_elem_of_fmap.
    pose proof (Hran (Z.of_nat j)). lia.
Qed.

Lemma inverse_assignment_lookup n c j y :
  c ≡ₚ seq 0 n → c !! j = Some y → inverse_assignment c !! y = Some j.
Proof.
  intros Hc Hj. unfold inverse_assignment.
  assert (y < n) by (eapply (assignment_elem_of _ _ Hc), list_elem_of_lookup_2, Hj).
  rewrite list_lookup_fmap, lookup_seq_lt
    by (by rewrite (assignment_length _ _ Hc)).
  cbn. by rewrite (list_index_from_NoDup 0 c j y), Nat.add_0_l
    by eauto using assignment_NoDup.
Qed.

Lemma inverse_assignment_Permutation n c :
  c ≡ₚ seq 0 n → inverse_assignment c ≡ₚ seq 0 n.
Proof.
  intros Hc. pose proof (assignment_length _ _ Hc) as Hlen.
  assert (∀ i, i < n → ∃ j, c !! j = Some i) as Hsurj.
  { intros i Hi. apply list_elem_of_lookup_1, (assignment_elem_of _ _ Hc), Hi. }
  apply pigeonhole_Permutation.
  - unfold inverse_assignment. apply NoDup_fmap_2_strong; [|apply NoDup_seq].
    intros x y Hx%elem_of_seq Hy%elem_of_seq.
    destruct (Hsurj x) as [jx Hjx]; [lia|]. destruct (Hsurj y) as [jy Hjy]; [lia|].
    rewrite (list_index_from_NoDup 0 c jx x), (list_index_from_NoDup 0 c jy y)
      by eauto using assignment_NoDup.
    cbn. intros Heq. assert (jx = jy) as -> by lia. congruence.
  - unfold inverse_assignment. by rewrite length_fmap, length_seq.
  - intros x (i & -> & Hi%elem_of_seq)%list_elem_of_fmap.
    destruct (Hsurj i) as [j Hj]; [lia|].
    rewrite (list_index_from_NoDup 0 c j i) by eauto using assignment_NoDup.
    cbn. apply lookup_lt_Some in Hj. lia.
Qed.

(** Looking a label up in the inverse of [σ] applies [σ]. *)
Lemma index_of_inverse_images n σ (x : Z) :
  bijection_on n σ → (0 ≤ x < Z.of_nat n)%Z →
  index_of (inverse_assignment (images n σ)) x = σ x.
Proof.
  intros Hσ Hx. pose proof (images_Permutation n σ Hσ) as HL.
  pose proof (inverse_assignment_Permutation _ _ HL) as Hinv.
  assert (images n σ !! Z.to_nat x = Some (Z.to_nat (σ x))) as Hlk.
  { unfold images. rewrite list_lookup_fmap, lookup_seq_lt by lia. cbn.
    by rewrite Z2Nat.id by lia. }
  apply (inverse_assignment_lookup _ _ _ _ HL) in Hlk.
  unfold index_of.
  replace x with (Z.of_nat (Z.to_nat x)) at 1 by lia.
  rewrite (list_index_from_NoDup 0 _ _ _ (assignment_NoDup _ _ Hinv) Hlk).
  destruct Hσ as [Hran _]. pose proof (Hran x Hx). lia.
Qed.

(** ** Scores *)

Lemma accuracy_score_matches a b :
  (accuracy_score a b
   == inject_Z (Z.of_nat (matches a b))
      / inject_Z (Z.of_nat (length (zip a b))))%Q.
Proof.
  unfold accuracy_score, matches.
  apply Qmult_comp; [|reflexivity].
  induction (zip a b) as [|e l IH]; [reflexivity|].
  rewrite fmap_cons, filter_cons. cbn [foldr]. rewrite IH.
  case_bool_decide; case_decide; try done; cbn [length].
  - rewrite Nat2Z.inj_succ, <-Z.add_1_l, inject_Z_plus. reflexivity.
  - ring.
Qed.

Lemma loss_le_of_matches a b b' :
  length b = length b' → matches a b' ≤ matches a b →
  (1 - accuracy_score a b <= 1 - accuracy_score a b')%Q.
Proof.
  intros Hlen Hm. rewrite !accuracy_score_matches, !length_zip, Hlen.
  unfold Qminus. apply Qplus_le_r, Qopp_le_compat.
  unfold Qdiv. apply Qmult_le_compat_r.
  - rewrite <-Zle_Qle. lia.
  - apply Qinv_le_0_compat. replace 0%Q with (inject_Z 0) by done.
    rewrite <-Zle_Qle. lia.
Qed.

Lemma loss_eq_of_matches a b b' :
  length b = length b' → matches a b' = matches a b →
  (1 - accuracy_score a b == 1 - accuracy_score a b')%Q.
Proof.
  intros Hlen Hm. by rewrite !accuracy_score_matches, !length_zip, Hlen, Hm.
Qed.

(** ** The label matcher on arrays *)

Lemma filter_ext_elem_of {A} (P1 P2 : A → Prop)
    `{!∀ x, Decision (P1 x), !∀ x, Decision (P2 x)} (l : list A) :
  (∀ x, x ∈ l → P1 x ↔ P2 x) → filter P1 l = filter P2 l.
Proof.
  induction l as [|a l IH]; intros Hiff; [done|].
  rewrite !filter_cons.
  rewrite IH by (intros x Hx; apply Hiff; by right).
  pose proof (Hiff a (list_elem_of_here _ _)).
  repeat case_decide; try done; naive_solver.
Qed.

Section matcher.
Context `{!AssignmentSolver}.

Lemma assignment_Permutation t p : assignment t p ≡ₚ seq 0 (nclass t).
Proof. apply lsa_col_ind, cost_matrix_square. Qed.

(** No assignment agrees on more samples than the solver's. *)
Lemma assignment_agree_max t p c :
  c ≡ₚ seq 0 (nclass t) →
  agree (zip t p) (seq 0 (nclass t)) c
  ≤ agree (zip t p) (seq 0 (nclass t)) (assignment t p).
Proof.
  intros Hc. destruct t as [|x t].
  { by rewrite !agree_nil. }
  pose proof (lsa_optimal (nclass (x :: t)) (cost_matrix (x :: t) p) c
                (cost_matrix_square _ _) Hc) as Hopt.
  unfold nclass in *.
  rewrite !total_cost_agree in Hopt by (done || apply assignment_Permutation).
  unfold Qdiv in Hopt. apply Qmult_lt_0_le_reg_r in Hopt.
  - rewrite <-Zle_Qle in Hopt. unfold assignment. lia.
  - apply Qinv_lt_0_compat. replace 0%Q with (inject_Z 0) by done.
    rewrite <-Zlt_Qlt. cbn [length]. lia.
Qed.

Lemma in_universe_index_is_Some n c p :
  c ≡ₚ seq 0 n → in_universe n p →
  Forall (λ x, is_Some (list_index_from 0 c x)) p.
Proof.
  intros Hc Hp. eapply Forall_impl; [exact Hp|]. intros x Hx.
  by apply (assignment_index_is_Some n).
Qed.

Lemma kuhn_munkres_ok t p :
  in_universe (nclass t) p →
  _kuhn_munkres_algorithm (PyNdarray t) (PyNdarray p)
  = Ok (index_of (assignment t p) <$> p).
Proof.
  intros Hp. cbn. apply rmap_list_index_ok.
  eapply in_universe_index_is_Some, Hp. apply assignment_Permutation.
Qed.

Lemma kuhn_munkres_raise t p :
  ¬ in_universe (nclass t) p →
  _kuhn_munkres_algorithm (PyNdarray t) (PyNdarray p)
  = Raise (ValueError "x is not in list").
Proof.
  intros Hp. cbn. apply rmap_list_index_raise.
  apply not_Forall_Exists in Hp; [|solve_decision].
  eapply Exists_impl; [exact Hp|]. intros x Hx. cbn in Hx.
  by apply (assignment_index_None (nclass t)), Hx; apply assignment_Permutation.
Qed.

(** The matcher's output agrees with the true labels on as many samples as
    the solver's assignment does. *)
Lemma matches_assignment t p :
  in_universe (nclass t) p →
  matches t (index_of (assignment t p) <$> p)
  = agree (zip t p) (seq 0 (nclass t)) (assignment t p).
Proof.
  intros Hp. pose proof (assignment_Permutation t p) as Hc.
  rewrite matches_fmap. apply filter_index_of_agree.
  - by eapply assignment_NoDup.
  - by eapply assignment_length.
  - apply Forall_forall. intros [x y] Hxy%elem_of_zip_r. cbn.
    eapply (assignment_index_is_Some _ _ Hc).
    by eapply (proj1 (Forall_forall _ _) Hp).
Qed.

(** Applying a bijection [σ] to the predicted labels agrees with the true
    labels on as many samples as the inverse of [σ], seen as an
    assignment. *)
Lemma matches_bijection t p σ :
  in_universe (nclass t) p → bijection_on (nclass t) σ →
  matches t (σ <$> p)
  = agree (zip t p) (seq 0 (nclass t))
          (inverse_assignment (images (nclass t) σ)).
Proof.
  intros Hp Hσ.
  pose proof (inverse_assignment_Permutation _ _
                (images_Permutation _ _ Hσ)) as Hc.
  rewrite <-(filter_index_of_agree (nclass t)).
  - rewrite matches_fmap. f_equal. apply filter_ext_elem_of.
    intros [x y] Hxy%elem_of_zip_r. cbn.
    by rewrite (index_of_inverse_images _ _ y Hσ)
      by (by eapply (proj1 (Forall_forall _ _) Hp)).
  - by eapply assignment_NoDup.
  - by eapply assignment_length.
  - apply Forall_forall. intros [x y] Hxy%elem_of_zip_r. cbn.
    eapply (assignment_index_is_Some _ _ Hc).
    by eapply (proj1 (Forall_forall _ _) Hp).
Qed.
End matcher.

(** * The claims *)

(** ** The cost matrix against its specification *)

Lemma length_filter_fmap {A B} (f : A → B) (P : B → Prop)
    `{!∀ x, Decision (P x)} (l : list A) :
  length (filter P (f <$> l)) = length (filter (λ x, P (f x)) l).
Proof.
  induction l as [|a l IH]; [done|].
  rewrite fmap_cons, !filter_cons. case_decide; cbn [length]; by rewrite IH.
Qed.

Lemma filter_none {A} (P : A → Prop) `{!∀ x, Decision (P x)} (l : list A) :
  (∀ x, ¬ P x) → filter P l = [].
Proof.
  intros HP. induction l as [|a l IH]; [done|].
  by rewrite filter_cons, decide_False, IH.
Qed.

Lemma spec_intersection_pair_count t p i j :
  spec_intersection t p i j = pair_count (zip t p) i j.
Proof.
  unfold spec_intersection, pair_count. revert p.
  induction t as [|x t IH]; intros p; [done|].
  cbn [length]. rewrite <-cons_seq, <-fmap_S_seq, filter_cons.
  assert (∀ q : list Z,
    length (filter (λ s : nat, (x :: t) !! s = Some i ∧ q !! s = Some j)
                   (Datatypes.S <$> seq 0 (length t)))
    = length (filter (λ s : nat, t !! s = Some i
                                 ∧ q !! Datatypes.S s = Some j)
                     (seq 0 (length t)))) as Htl.
  { intros q. by rewrite length_filter_fmap. }
  destruct p as [|y p].
  - rewrite decide_False by (intros [_ ?]; done).
    rewrite Htl, filter_none; [done|]. by intros s [_ ?].
  - change (zip (x :: t) (y :: p)) with ((x, y) :: zip t p).
    rewrite filter_cons. cbn [fst snd]. specialize (IH p).
    destruct (decide (x = i ∧ y = j)) as [[-> ->]|Hne].
    + rewrite decide_True by done. cbn [length]. rewrite Htl.
      f_equal. exact IH.
    + rewrite decide_False; [rewrite Htl; exact IH|].
      intros [[= ->] [= ->]]. by apply Hne.
Qed.

Lemma nclass_pos_nobs_pos (t : list Z) : 0 < nclass t → 0 < length t.
Proof. destruct t; [|cbn; lia]. unfold nclass, pyset. cbn. rewrite size_empty. lia. Qed.

Lemma weight_range nobs k :
  0 < nobs → k ≤ nobs → (0 <= weight nobs k <= 1)%Q.
Proof.
  intros Hn Hk. unfold weight.
  assert (0 < inject_Z (Z.of_nat nobs))%Q as Hpos.
  { replace 0%Q with (inject_Z 0) by done. rewrite <-Zlt_Qlt. lia. }
  split.
  - apply Qle_shift_div_l; [done|]. rewrite Qmult_0_l.
    replace 0%Q with (inject_Z 0) by done. rewrite <-Zle_Qle. lia.
  - apply Qle_shift_div_r; [done|]. rewrite Qmult_1_l, <-Zle_Qle. lia.
Qed.

(** C2. The cost matrix built by the two loops has shape
    [(nclass, nclass)] with [nclass = |set(true_lab)|], and each entry
    [[i, j]] equals
    [(n_samples − |{s : true_lab[s]=i} ∩ {s : pred_lab[s]=j}|) / n_samples],
    a value in [[0, 1]], although the loops only visit the pairs
    [lab <= plab] and fill two entries per off-diagonal visit. *)
Theorem cost_matrix_meets_spec (true_lab pred_lab : list Z) :
  length (cost_matrix true_lab pred_lab) = nclass true_lab
  ∧ Forall (λ row, length row = nclass true_lab)
           (cost_matrix true_lab pred_lab)
  ∧ ∀ i j, i < nclass true_lab → j < nclass true_lab →
      mget (cost_matrix true_lab pred_lab) i j
      = Some (spec_cost true_lab pred_lab i j)
      ∧ (0 <= spec_cost true_lab pred_lab i j <= 1)%Q.
Proof.
  destruct (cost_matrix_square true_lab pred_lab) as [Hlen Hrows].
  split; [done|]. split; [done|]. intros i j Hi Hj.
  assert (spec_cost true_lab pred_lab i j
          = weight (length true_lab) (n_intersec true_lab pred_lab i j)) as ->.
  { unfold spec_cost, weight.
    by rewrite spec_intersection_pair_count, n_intersec_pair_count. }
  split; [by apply cost_matrix_entry|].
  apply weight_range; [apply nclass_pos_nobs_pos; lia|].
  apply n_intersec_le_nobs.
Qed.

Lemma cost_matrix_meets_spec_witness :
  mget (cost_matrix [0; 0; 1; 1]%Z [1; 1; 0; 1]%Z) 1 0
  = Some (spec_cost [0; 0; 1; 1]%Z [1; 1; 0; 1]%Z 1 0)
  ∧ (0 <= spec_cost [0; 0; 1; 1]%Z [1; 1; 0; 1]%Z 1 0 <= 1)%Q.
Proof.
  apply (cost_matrix_meets_spec [0; 0; 1; 1]%Z [1; 1; 0; 1]%Z);
    vm_compute; lia.
Defined.

(** ** The disagreement rate and the total cost *)

Lemma zero_one_loss_ok a b :
  length a = length b → a ≠ [] →
  zero_one_loss a b = Ok (1 - accuracy_score a b)%Q.
Proof.
  intros Hlen Hne. unfold zero_one_loss. rewrite bool_decide_eq_true_2 by done.
  by destruct a.
Qed.

Lemma zero_one_loss_raise a b :
  length a ≠ length b → ∃ msg, zero_one_loss a b = Raise (ValueError msg).
Proof.
  intros Hlen. unfold zero_one_loss. rewrite bool_decide_eq_false_2 by done.
  by eexists.
Qed.

Lemma zero_one_loss_empty b :
  ∃ msg, zero_one_loss [] b = Raise (ValueError msg).
Proof. unfold zero_one_loss. case_bool_decide; by eexists. Qed.

Lemma zero_one_loss_inv a b d :
  zero_one_loss a b = Ok d →
  length a = length b ∧ a ≠ [] ∧ d = (1 - accuracy_score a b)%Q.
Proof.
  unfold zero_one_loss. case_bool_decide; [|done].
  destruct a; [done|]. intros [= <-]. done.
Qed.

Lemma matches_mismatches a b :
  matches a b + mismatches a b = length (zip a b).
Proof.
  unfold matches, mismatches. induction (zip a b) as [|e l IH]; [done|].
  rewrite !filter_cons. repeat case_decide; cbn [length]; try done; lia.
Qed.

(** [zero_one_loss] is the fraction of differing samples. *)
Lemma zero_one_loss_spec a b :
  length a = length b → a ≠ [] →
  ∃ d, zero_one_loss a b = Ok d ∧ (d == spec_disagreement_rate a b)%Q.
Proof.
  intros Hlen Hne. eexists. split; [by apply zero_one_loss_ok|].
  rewrite accuracy_score_matches. unfold spec_disagreement_rate.
  pose proof (matches_mismatches a b) as Hsum.
  rewrite length_zip, <-Hlen, Nat.min_id in *.
  replace (Z.of_nat (mismatches a b))
    with (Z.of_nat (length a) + - Z.of_nat (matches a b))%Z by lia.
  rewrite inject_Z_plus, inject_Z_opp. field.
  replace 0%Q with (inject_Z 0) by done. rewrite inject_Z_injective.
  destruct a; [done|cbn [length]; lia].
Qed.

(** Two pairs of equal-length labelings with the same number of agreeing
    samples have the same number of differing samples and the same outcome
    of [zero_one_loss], which is a rate on at least one sample. *)
Lemma same_loss_of_matches t r t' r' :
  length t = length r → length t' = length r' → length t = length t' →
  matches t r = matches t' r' →
  mismatches t r = mismatches t' r'
  ∧ same_loss (zero_one_loss t r) (zero_one_loss t' r')
  ∧ (t ≠ [] →
     ∃ d d' : Q,
       zero_one_loss t r = Ok d ∧ zero_one_loss t' r' = Ok d' ∧ (d == d')%Q).
Proof.
  intros Hl Hl' Htt Hm.
  assert (t ≠ [] →
          ∃ d d' : Q,
            zero_one_loss t r = Ok d ∧ zero_one_loss t' r' = Ok d'
            ∧ (d == d')%Q) as Hrate.
  { intros Hne.
    assert (t' ≠ []) as Hne' by (intros ->; by destruct t).
    eexists _, _. split; [by apply zero_one_loss_ok|].
    split; [by apply zero_one_loss_ok|].
    by rewrite !accuracy_score_matches, !length_zip, <-Hl, <-Hl', <-Htt, Hm. }
  split; [|split; [|done]].
  - pose proof (matches_mismatches t r) as H1.
    pose proof (matches_mismatches t' r') as H2.
    rewrite length_zip in H1, H2. lia.
  - destruct (decide (t = [])) as [->|Hne].
    + destruct t'; [|done]. destruct r; [|done]. by destruct r'.
    + destruct (Hrate Hne) as (d & d' & -> & -> & Hdd). exact Hdd.
Qed.

(** ** Bijections of the label set and inverse lookups *)

Lemma index_of_lookup n c (x : Z) :
  c ≡ₚ seq 0 n → (0 ≤ x < Z.of_nat n)%Z →
  ∃ k, list_index_from 0 c x = Some k ∧ index_of c x = Z.of_nat k
       ∧ c !! k = Some (Z.to_nat x) ∧ k < n.
Proof.
  intros Hc Hx.
  destruct (assignment_index_is_Some n c Hc x Hx) as [k Hk].
  exists k. split; [done|]. split; [unfold index_of; by rewrite Hk|].
  destruct (list_index_from_lookup _ _ _ _ Hk) as (y & Hy & Hyx).
  rewrite Nat.sub_0_r in Hy. split.
  - rewrite Hy. f_equal. lia.
  - apply lookup_lt_Some in Hy. by rewrite (assignment_length _ _ Hc) in Hy.
Qed.

Lemma index_of_bijection n c : c ≡ₚ seq 0 n → bijection_on n (index_of c).
Proof.
  intros Hc. split.
  - intros x Hx. destruct (index_of_lookup n c x Hc Hx) as (k & _ & -> & _ & ?).
    lia.
  - intros x y Hx Hy Heq.
    destruct (index_of_lookup n c x Hc Hx) as (kx & _ & Hix & Hlx & _).
    destruct (index_of_lookup n c y Hc Hy) as (ky & _ & Hiy & Hly & _).
    assert (kx = ky) as -> by lia. rewrite Hlx in Hly. injection Hly. lia.
Qed.

Lemma bijection_on_compose n (f g : Z → Z) :
  bijection_on n f → bijection_on n g → bijection_on n (g ∘ f).
Proof.
  intros [Hfr Hfi] [Hgr Hgi]. split.
  - intros x Hx. cbn. auto.
  - intros x y Hx Hy Heq. cbn in Heq. apply Hgi in Heq; auto.
Qed.

Lemma index_of_images n σ (y : Z) :
  bijection_on n σ → (0 ≤ y < Z.of_nat n)%Z →
  index_of (images n σ) (σ y) = y.
Proof.
  intros Hσ Hy. pose proof (images_Permutation n σ Hσ) as HL.
  destruct Hσ as [Hran _]. pose proof (Hran y Hy).
  assert (images n σ !! Z.to_nat y = Some (Z.to_nat (σ y))) as Hlk.
  { unfold images. rewrite list_lookup_fmap, lookup_seq_lt by lia. cbn.
    by rewrite Z2Nat.id by lia. }
  unfold index_of. replace (σ y) with (Z.of_nat (Z.to_nat (σ y))) by lia.
  rewrite (list_index_from_NoDup 0 _ _ _ (assignment_NoDup _ _ HL) Hlk). lia.
Qed.

Lemma in_universe_fmap n σ p :
  bijection_on n σ → in_universe n p → in_universe n (σ <$> p).
Proof.
  intros [Hran _] Hp. apply Forall_fmap. eapply Forall_impl; [exact Hp|].
  intros x Hx. by apply Hran.
Qed.

(** No bijective relabeling of the predicted labels agrees with the true
    labels on more samples than the matcher's relabeling does. *)
Lemma matches_bijection_le `{!AssignmentSolver} t p σ :
  in_universe (nclass t) p → bijection_on (nclass t) σ →
  matches t (σ <$> p) ≤ matches t (index_of (assignment t p) <$> p).
Proof.
  intros Hp Hσ. rewrite matches_bijection, matches_assignment by done.
  apply assignment_agree_max.
  by apply inverse_assignment_Permutation, images_Permutation.
Qed.

(** ** Optimality of the returned relabeling *)

(** C1. For equal-length labelings whose predicted labels lie in
    [{0 .. nclass-1}] with [nclass = |set(true_lab)|], the matcher returns
    [τ(pred_lab)] for a bijection [τ] of [{0 .. nclass-1}], the one read
    off the solver's assignment (column [τ x] is assigned to [x]); the
    number of samples on which [τ(pred_lab)] differs from [true_lab] is at
    most that of [σ(pred_lab)] for every bijection [σ] of
    [{0 .. nclass-1}], and so is, on at least one sample, its 0/1
    disagreement rate (the fraction of differing samples); and the
    assignment has minimal total cost on the cost matrix among all
    assignments [c]. *)
Theorem kuhn_munkres_minimises_disagreement `{!AssignmentSolver}
    (true_lab pred_lab : list Z) (σ : Z → Z) (c : list nat) :
  length true_lab = length pred_lab →
  in_universe (nclass true_lab) pred_lab →
  bijection_on (nclass true_lab) σ →
  c ≡ₚ seq 0 (nclass true_lab) →
  ∃ (pred_perm : list Z) (τ : Z → Z),
    _kuhn_munkres_algorithm (PyNdarray true_lab) (PyNdarray pred_lab)
    = Ok pred_perm
    ∧ bijection_on (nclass true_lab) τ
    ∧ pred_perm = τ <$> pred_lab
    ∧ (∀ x : Z, (0 ≤ x < Z.of_nat (nclass true_lab))%Z →
         (linear_sum_assignment (cost_matrix true_lab pred_lab)).2
           !! Z.to_nat (τ x) = Some (Z.to_nat x))
    ∧ mismatches true_lab pred_perm ≤ mismatches true_lab (σ <$> pred_lab)
    ∧ (true_lab ≠ [] →
       ∃ d d' : Q,
         zero_one_loss true_lab pred_perm = Ok d
         ∧ zero_one_loss true_lab (σ <$> pred_lab) = Ok d'
         ∧ (d == spec_disagreement_rate true_lab pred_perm)%Q
         ∧ (d' == spec_disagreement_rate true_lab (σ <$> pred_lab))%Q
         ∧ (d <= d')%Q)
    ∧ (total_cost (cost_matrix true_lab pred_lab) (seq 0 (nclass true_lab))
         (linear_sum_assignment (cost_matrix true_lab pred_lab)).2
       <= total_cost (cost_matrix true_lab pred_lab)
            (seq 0 (nclass true_lab)) c)%Q.
Proof.
  intros Hlen Hp Hσ Hc.
  pose proof (assignment_Permutation true_lab pred_lab) as Ha.
  set (τ := index_of (assignment true_lab pred_lab)).
  assert (matches true_lab (σ <$> pred_lab)
          ≤ matches true_lab (τ <$> pred_lab)) as Hm.
  { unfold τ. rewrite matches_bijection, matches_assignment by done.
    apply assignment_agree_max.
    by apply inverse_assignment_Permutation, images_Permutation. }
  exists (τ <$> pred_lab), τ.
  split; [by apply kuhn_munkres_ok|].
  split; [by apply index_of_bijection|].
  split; [done|].
  split.
  { intros x Hx. unfold τ.
    destruct (index_of_lookup _ _ x Ha Hx) as (k & _ & -> & Hk & _).
    by rewrite Nat2Z.id. }
  split.
  { pose proof (matches_mismatches true_lab (τ <$> pred_lab)) as H1.
    pose proof (matches_mismatches true_lab (σ <$> pred_lab)) as H2.
    rewrite length_zip, length_fmap in H1, H2. lia. }
  split.
  { intros Hne.
    destruct (zero_one_loss_spec true_lab (τ <$> pred_lab))
      as (d & Hd & Hds); [by rewrite length_fmap|done|].
    destruct (zero_one_loss_spec true_lab (σ <$> pred_lab))
      as (d' & Hd' & Hds'); [by rewrite length_fmap|done|].
    exists d, d'. do 4 (split; [done|]).
    apply zero_one_loss_inv in Hd as (_ & _ & ->).
    apply zero_one_loss_inv in Hd' as (_ & _ & ->).
    apply loss_le_of_matches; [by rewrite !length_fmap|done]. }
  by apply lsa_optimal; [apply cost_matrix_square|].
Qed.

Lemma kuhn_munkres_minimises_disagreement_witness :
  ∃ (pred_perm : list Z) (τ : Z → Z),
    _kuhn_munkres_algorithm (H := exhaustive_solver)
      (PyNdarray [0; 0; 1; 1; 2]%Z) (PyNdarray [1; 2; 0; 0; 1]%Z)
    = Ok pred_perm
    ∧ bijection_on (nclass [0; 0; 1; 1; 2]%Z) τ
    ∧ pred_perm = τ <$> [1; 2; 0; 0; 1]%Z.
Proof.
  destruct (kuhn_munkres_minimises_disagreement (H := exhaustive_solver)
              [0; 0; 1; 1; 2]%Z [1; 2; 0; 0; 1]%Z
              (λ x : Z, 2 - x)%Z [2; 0; 1])
    as (pred_perm & τ & H1 & H2 & H3 & _).
  - reflexivity.
  - vm_compute. repeat constructor; discriminate.
  - split; vm_compute (Z.of_nat _); intros; lia.
  - exact (Permutation_cons_append [0; 1] 2).
  - exists pred_perm, τ. split; [exact H1|]. split; [exact H2|exact H3].
Defined.

(** ** Identical labelings *)

Lemma matches_le_length a b : matches a b ≤ length a.
Proof.
  unfold matches. etrans; [apply length_filter|]. rewrite length_zip. lia.
Qed.

Lemma matches_full a b :
  length a = length b → matches a b = length a → a = b.
Proof.
  unfold matches. revert b. induction a as [|x a IH]; intros [|y b]; try done.
  cbn [length]. intros [= Hlen].
  change (zip (x :: a) (y :: b)) with ((x, y) :: zip a b).
  rewrite filter_cons. cbn [fst snd].
  pose proof (matches_le_length a b) as Hle. unfold matches in Hle.
  case_decide as Hxy; cbn [length]; [|lia].
  intros [= Hm]. subst y. f_equal. by apply IH.
Qed.

Lemma matches_refl a : matches a a = length a.
Proof.
  unfold matches. induction a as [|x a IH]; [done|].
  change (zip (x :: a) (x :: a)) with ((x, x) :: zip a a).
  rewrite filter_cons, decide_True by done. cbn [length]. by rewrite IH.
Qed.

Lemma index_of_seq n (x : Z) :
  (0 ≤ x < Z.of_nat n)%Z → index_of (seq 0 n) x = x.
Proof.
  intros Hx. unfold index_of. replace x with (Z.of_nat (Z.to_nat x)) at 1 by lia.
  rewrite (list_index_from_NoDup 0 (seq 0 n) (Z.to_nat x) (Z.to_nat x)).
  - lia.
  - apply NoDup_seq.
  - apply lookup_seq_lt. lia.
Qed.

(** When all labels lie in [0 .. nclass-1], each of these labels occurs. *)
Lemma universe_covered (t : list Z) i :
  in_universe (nclass t) t → i < nclass t → Z.of_nat i ∈ t.
Proof.
  intros Ht Hi. unfold nclass, pyset in *.
  set (E := elements (list_to_set t : gset Z)).
  assert (∀ z, z ∈ E → z ∈ t) as HE.
  { intros z Hz. by apply elem_of_elements, elem_of_list_to_set in Hz. }
  assert (Z.to_nat <$> E ≡ₚ seq 0 (size (list_to_set t : gset Z))) as Hperm.
  { apply pigeonhole_Permutation.
    - apply NoDup_fmap_2_strong; [|apply NoDup_elements].
      intros x y Hx%HE Hy%HE Hxy.
      pose proof (proj1 (Forall_forall _ _) Ht x Hx).
      pose proof (proj1 (Forall_forall _ _) Ht y Hy). cbn in *. lia.
    - by rewrite length_fmap.
    - intros x (z & -> & Hz%HE)%list_elem_of_fmap.
      pose proof (proj1 (Forall_forall _ _) Ht z Hz). cbn in *. lia. }
  assert (i ∈ Z.to_nat <$> E) as (z & -> & Hz%HE)%list_elem_of_fmap.
  { rewrite Hperm. apply elem_of_seq. lia. }
  pose proof (proj1 (Forall_forall _ _) Ht z Hz). cbn in *.
  by rewrite Z2Nat.id by lia.
Qed.

(** ** Errors of the label matcher *)

(** C10. When [pred_lab] holds a label outside [{0 .. nclass-1}]
    ([nclass = |set(true_lab)|]), the matcher returns no relabeled array:
    the inverse lookup raises [ValueError], not the documented
    [TypeError]. *)
Theorem kuhn_munkres_out_of_universe `{!AssignmentSolver}
    (true_lab pred_lab : list Z) (x : Z) :
  x ∈ pred_lab →
  ¬ (0 ≤ x < Z.of_nat (nclass true_lab))%Z →
  (∃ msg, _kuhn_munkres_algorithm (PyNdarray true_lab) (PyNdarray pred_lab)
          = Raise (ValueError msg))
  ∧ (∀ r, _kuhn_munkres_algorithm (PyNdarray true_lab) (PyNdarray pred_lab)
          ≠ Ok r)
  ∧ (∀ msg, _kuhn_munkres_algorithm (PyNdarray true_lab) (PyNdarray pred_lab)
            ≠ Raise (TypeError msg)).
Proof.
  intros Hx Hout.
  rewrite kuhn_munkres_raise; [by eauto|].
  intros Hp. apply Hout. by apply (proj1 (Forall_forall _ _) Hp).
Qed.

Lemma kuhn_munkres_out_of_universe_witness :
  (∃ msg, _kuhn_munkres_algorithm (H := exhaustive_solver)
            (PyNdarray [0; 0; 1]%Z) (PyNdarray [0; 2; 1]%Z)
          = Raise (ValueError msg))
  ∧ (∀ r, _kuhn_munkres_algorithm (H := exhaustive_solver)
            (PyNdarray [0; 0; 1]%Z) (PyNdarray [0; 2; 1]%Z) ≠ Ok r)
  ∧ (∀ msg, _kuhn_munkres_algorithm (H := exhaustive_solver)
              (PyNdarray [0; 0; 1]%Z) (PyNdarray [0; 2; 1]%Z)
            ≠ Raise (TypeError msg)).
Proof.
  apply (kuhn_munkres_out_of_universe (H := exhaustive_solver)
           [0; 0; 1]%Z [0; 2; 1]%Z 2%Z).
  - right; left.
  - replace (nclass [0; 0; 1]%Z) with 2 by (by vm_compute). lia.
Defined.

(** On two arrays the matcher either returns or raises [ValueError]. *)
Lemma kuhn_munkres_arrays `{!AssignmentSolver} t p :
  (∃ r, _kuhn_munkres_algorithm (PyNdarray t) (PyNdarray p) = Ok r)
  ∨ _kuhn_munkres_algorithm (PyNdarray t) (PyNdarray p)
    = Raise (ValueError "x is not in list").
Proof.
  destruct (decide (in_universe (nclass t) p)) as [Hp|Hp].
  - left. rewrite kuhn_munkres_ok by done. by eexists.
  - right. by apply kuhn_munkres_raise.
Qed.

(** C7. The matcher raises a [TypeError] exactly when one of its two
    arguments is not a numpy array; the message names the types of both
    arguments, and no result is returned. *)
Theorem kuhn_munkres_type_error `{!AssignmentSolver}
    (true_lab pred_lab : pyobj) :
  ((∃ msg, _kuhn_munkres_algorithm true_lab pred_lab = Raise (TypeError msg))
   ↔ (is_ndarray true_lab = false ∨ is_ndarray pred_lab = false))
  ∧ (∀ msg, _kuhn_munkres_algorithm true_lab pred_lab = Raise (TypeError msg) →
       msg = ("input variables should be (np.ndarray, np.ndarray) not ("
                ++ type_str (type_of true_lab) ++ ", "
                ++ type_str (type_of pred_lab) ++ ")")%string
       ∧ ∀ r, _kuhn_munkres_algorithm true_lab pred_lab ≠ Ok r).
Proof.
  destruct true_lab as [t| | | |], pred_lab as [p| | | |];
    try (split;
         [split; [intros _; cbn; auto|intros _; by eexists]
         |intros msg [= <-]; by split]).
  split.
  - split; [|cbn; intros [|]; discriminate].
    intros [msg Hmsg].
    destruct (kuhn_munkres_arrays t p) as [[r Hr]|Hr]; congruence.
  - intros msg Hmsg.
    destruct (kuhn_munkres_arrays t p) as [[r Hr]|Hr]; congruence.
Qed.

Lemma kuhn_munkres_type_error_witness :
  ∃ msg, _kuhn_munkres_algorithm (H := exhaustive_solver)
           (PyList [0; 1]%Z) (PyNdarray [1; 0]%Z)
         = Raise (TypeError msg).
Proof.
  apply (proj1 (kuhn_munkres_type_error (H := exhaustive_solver)
                  (PyList [0; 1]%Z) (PyNdarray [1; 0]%Z))).
  left. reflexivity.
Defined.

(** C8, as amended.  The matcher has no check for degenerate input: with
    zero samples in [true_lab] (hence zero distinct labels) and an empty
    [pred_lab] it returns the empty array; with a non-empty [pred_lab] the
    inverse lookup raises [ValueError]. *)
Theorem kuhn_munkres_degenerate `{!AssignmentSolver} (pred_lab : list Z) :
  _kuhn_munkres_algorithm (PyNdarray []) (PyNdarray pred_lab)
  = match pred_lab with
    | [] => Ok []
    | _ :: _ => Raise (ValueError "x is not in list")
    end.
Proof.
  destruct pred_lab as [|x p]; [done|].
  apply kuhn_munkres_raise. intros Hp. apply Forall_cons in Hp as [Hx _].
  unfold nclass, pyset in Hx. cbn in Hx. rewrite size_empty in Hx. lia.
Qed.

(** C8, counterexample: on zero samples the matcher returns the empty
    array and raises nothing. *)
Lemma kuhn_munkres_degenerate_returns :
  _kuhn_munkres_algorithm (H := exhaustive_solver)
    (PyNdarray []) (PyNdarray []) = Ok []
  ∧ ¬ ∃ e, _kuhn_munkres_algorithm (H := exhaustive_solver)
             (PyNdarray []) (PyNdarray []) = Raise e.
Proof. split; [reflexivity|]. intros [e He]. discriminate He. Qed.

(** ** Identical labelings and relabeling invariance *)

Section identical.
Context `{!AssignmentSolver} (lab : list Z).
Hypothesis Hlab : in_universe (nclass lab) lab.

Lemma agree_identity :
  agree (zip lab lab) (seq 0 (nclass lab)) (seq 0 (nclass lab)) = length lab.
Proof.
  rewrite <-(filter_index_of_agree (nclass lab)).
  - rewrite <-matches_fmap.
    rewrite (Forall_fmap_ext_1 (index_of (seq 0 (nclass lab))) id lab).
    + by rewrite list_fmap_id, matches_refl.
    + eapply Forall_impl; [exact Hlab|]. intros x Hx. by apply index_of_seq.
  - apply NoDup_seq.
  - apply length_seq.
  - apply Forall_forall. intros [x y] Hxy%elem_of_zip_r. cbn.
    apply (assignment_index_is_Some (nclass lab)); [done|].
    by apply (proj1 (Forall_forall _ _) Hlab).
Qed.

Lemma identical_relabel : index_of (assignment lab lab) <$> lab = lab.
Proof.
  symmetry. apply matches_full; [by rewrite length_fmap|].
  apply Nat.le_antisymm; [apply matches_le_length|].
  rewrite matches_assignment, <-agree_identity by done.
  by apply assignment_agree_max.
Qed.

Lemma identical_assignment : assignment lab lab = seq 0 (nclass lab).
Proof.
  pose proof (assignment_Permutation lab lab) as Hc.
  apply list_eq. intros i. destruct (decide (i < nclass lab)) as [Hi|Hi].
  - rewrite lookup_seq_lt by done. cbn.
    pose proof (universe_covered lab i Hlab Hi) as Hin.
    assert (index_of (assignment lab lab) (Z.of_nat i) = Z.of_nat i) as Hidx.
    { pose proof identical_relabel as Heq.
      apply list_elem_of_lookup_1 in Hin as [k Hk].
      apply (f_equal (λ l, l !! k)) in Heq.
      rewrite list_lookup_fmap, Hk in Heq. by injection Heq. }
    destruct (index_of_lookup _ _ (Z.of_nat i) Hc) as (k & _ & Hk & Hlk & _);
      [lia|].
    assert (k = i) as -> by lia. by rewrite Hlk, Nat2Z.id.
  - rewrite lookup_seq_ge by lia. apply lookup_ge_None.
    rewrite (assignment_length _ _ Hc). lia.
Qed.

Lemma identical_cost :
  lab ≠ [] →
  (total_cost (cost_matrix lab lab) (seq 0 (nclass lab)) (seq 0 (nclass lab))
   == inject_Z (Z.of_nat (nclass lab)) - 1)%Q.
Proof.
  intros Hne. unfold nclass. rewrite total_cost_agree by done.
  fold (nclass lab). rewrite agree_identity.
  unfold Z.sub. rewrite inject_Z_plus, inject_Z_opp, inject_Z_mult. field.
  replace 0%Q with (inject_Z 0) by done. rewrite inject_Z_injective.
  destruct lab; [done|cbn [length]; lia].
Qed.
End identical.

(** C6, as amended.  For identical labelings whose labels all lie in
    [{0 .. nclass-1}], the matcher returns a labeling identical to the
    input: the solver's assignment is the identity permutation, whose total
    cost is [nclass - 1]. *)
Theorem kuhn_munkres_identical `{!AssignmentSolver} (lab : list Z) :
  in_universe (nclass lab) lab →
  _kuhn_munkres_algorithm (PyNdarray lab) (PyNdarray lab) = Ok lab
  ∧ (linear_sum_assignment (cost_matrix lab lab)).2 = seq 0 (nclass lab)
  ∧ (lab ≠ [] →
     (total_cost (cost_matrix lab lab) (seq 0 (nclass lab))
        (linear_sum_assignment (cost_matrix lab lab)).2
      == inject_Z (Z.of_nat (nclass lab)) - 1)%Q).
Proof.
  intros Hlab. split; [|split].
  - rewrite kuhn_munkres_ok by done. f_equal. by apply identical_relabel.
  - by apply identical_assignment.
  - intros Hne. fold (assignment lab lab).
    rewrite identical_assignment by done. by apply identical_cost.
Qed.

Lemma kuhn_munkres_identical_witness :
  _kuhn_munkres_algorithm (H := exhaustive_solver)
    (PyNdarray [0; 0; 1; 2; 1]%Z) (PyNdarray [0; 0; 1; 2; 1]%Z)
  = Ok [0; 0; 1; 2; 1]%Z.
Proof.
  apply (kuhn_munkres_identical (H := exhaustive_solver) [0; 0; 1; 2; 1]%Z).
  replace (nclass [0; 0; 1; 2; 1]%Z) with 3 by (by vm_compute).
  repeat constructor; lia.
Defined.

(** C6, counterexample: the identical labelings [[1]] and [[1]] are not
    returned; the lookup of the label [1] in the assignment [[0]] raises
    [ValueError]. *)
Lemma kuhn_munkres_identical_raises :
  _kuhn_munkres_algorithm (H := exhaustive_solver)
    (PyNdarray [1]%Z) (PyNdarray [1]%Z)
  = Raise (ValueError "x is not in list")
  ∧ _kuhn_munkres_algorithm (H := exhaustive_solver)
      (PyNdarray [1]%Z) (PyNdarray [1]%Z) ≠ Ok [1]%Z.
Proof. split; [reflexivity|discriminate]. Qed.

(** C4, as amended.  For equal-length labelings whose predicted labels lie
    in [{0 .. nclass-1}] and for every bijection [σ] of [{0 .. nclass-1}],
    matching [σ(pred_lab)] and matching [pred_lab] give the same 0/1
    disagreement rate against [true_lab]: the two aligned arrays differ
    from [true_lab] on the same number of samples, [zero_one_loss] has the
    same outcome on both, and on at least one sample that outcome is a
    rate. *)
Theorem kuhn_munkres_relabeling_invariant `{!AssignmentSolver}
    (true_lab pred_lab : list Z) (σ : Z → Z) :
  length true_lab = length pred_lab →
  in_universe (nclass true_lab) pred_lab →
  bijection_on (nclass true_lab) σ →
  ∃ r r' : list Z,
    _kuhn_munkres_algorithm (PyNdarray true_lab) (PyNdarray pred_lab) = Ok r
    ∧ _kuhn_munkres_algorithm (PyNdarray true_lab) (PyNdarray (σ <$> pred_lab))
      = Ok r'
    ∧ mismatches true_lab r = mismatches true_lab r'
    ∧ same_loss (zero_one_loss true_lab r) (zero_one_loss true_lab r')
    ∧ (true_lab ≠ [] →
       ∃ d d' : Q,
         zero_one_loss true_lab r = Ok d
         ∧ zero_one_loss true_lab r' = Ok d'
         ∧ (d == d')%Q).
Proof.
  intros Hlen Hp Hσ.
  pose proof (in_universe_fmap _ _ _ Hσ Hp) as Hp'.
  set (c := assignment true_lab pred_lab).
  set (c' := assignment true_lab (σ <$> pred_lab)).
  assert (matches true_lab (index_of c' <$> (σ <$> pred_lab))
          = matches true_lab (index_of c <$> pred_lab)) as Hm.
  { apply Nat.le_antisymm.
    - rewrite <-list_fmap_compose. apply matches_bijection_le; [done|].
      apply bijection_on_compose; [done|].
      apply index_of_bijection, assignment_Permutation.
    - rewrite (Forall_fmap_ext_1 (index_of c)
                 ((index_of c ∘ index_of (images (nclass true_lab) σ)) ∘ σ)
                 pred_lab).
      + rewrite (list_fmap_compose σ). apply matches_bijection_le; [done|].
        apply bijection_on_compose.
        * apply index_of_bijection, images_Permutation, Hσ.
        * apply index_of_bijection, assignment_Permutation.
      + eapply Forall_impl; [exact Hp|]. intros x Hx. cbn.
        by rewrite index_of_images. }
  assert (true_lab ≠ [] →
          ∃ d d' : Q,
            zero_one_loss true_lab (index_of c <$> pred_lab) = Ok d
            ∧ zero_one_loss true_lab (index_of c' <$> (σ <$> pred_lab))
              = Ok d'
            ∧ (d == d')%Q) as Hrate.
  { intros Hne. eexists _, _.
    split; [apply zero_one_loss_ok; [by rewrite length_fmap|done]|].
    split; [apply zero_one_loss_ok; [by rewrite !length_fmap|done]|].
    apply loss_eq_of_matches; [by rewrite !length_fmap|done]. }
  exists (index_of c <$> pred_lab), (index_of c' <$> (σ <$> pred_lab)).
  split; [by apply kuhn_munkres_ok|].
  split; [by apply kuhn_munkres_ok|].
  split.
  { pose proof (matches_mismatches true_lab (index_of c <$> pred_lab)) as H1.
    pose proof (matches_mismatches true_lab
                  (index_of c' <$> (σ <$> pred_lab))) as H2.
    rewrite length_zip, length_fmap in H1.
    rewrite length_zip, !length_fmap in H2. lia. }
  split; [|done].
  destruct (decide (true_lab = [])) as [->|Hne].
  - destruct pred_lab; [|done]. reflexivity.
  - destruct (Hrate Hne) as (d & d' & -> & -> & Hdd). exact Hdd.
Qed.

Lemma kuhn_munkres_relabeling_invariant_witness :
  ∃ (r r' : list Z) (d d' : Q),
    _kuhn_munkres_algorithm (H := exhaustive_solver)
      (PyNdarray [0; 0; 1; 1; 2]%Z) (PyNdarray [1; 2; 0; 0; 1]%Z) = Ok r
    ∧ _kuhn_munkres_algorithm (H := exhaustive_solver)
        (PyNdarray [0; 0; 1; 1; 2]%Z)
        (PyNdarray ((λ x : Z, 2 - x)%Z <$> [1; 2; 0; 0; 1]%Z)) = Ok r'
    ∧ zero_one_loss [0; 0; 1; 1; 2]%Z r = Ok d
    ∧ zero_one_loss [0; 0; 1; 1; 2]%Z r' = Ok d'
    ∧ (d == d')%Q.
Proof.
  destruct (kuhn_munkres_relabeling_invariant (H := exhaustive_solver)
              [0; 0; 1; 1; 2]%Z [1; 2; 0; 0; 1]%Z (λ x : Z, 2 - x)%Z)
    as (r & r' & H1 & H2 & _ & _ & H3).
  - reflexivity.
  - replace (nclass [0; 0; 1; 1; 2]%Z) with 3 by (by vm_compute).
    repeat constructor; lia.
  - replace (nclass [0; 0; 1; 1; 2]%Z) with 3 by (by vm_compute).
    split; intros; lia.
  - destruct (H3 ltac:(discriminate)) as (d & d' & H4 & H5 & H6).
    exists r, r', d, d'.
    split; [exact H1|]. split; [exact H2|]. split; [exact H4|].
    split; [exact H5|exact H6].
Defined.

(** C4, counterexample: with [true_lab = pred_lab = [0]] and the bijective
    relabeling [x ↦ 1 - x], the matcher returns [[0]] (disagreement rate
    [0]) on [pred_lab] but raises [ValueError] on [σ(pred_lab) = [1]]: no
    disagreement rate exists for the relabeled input. *)
Lemma kuhn_munkres_relabeling_raises :
  _kuhn_munkres_algorithm (H := exhaustive_solver)
    (PyNdarray [0]%Z) (PyNdarray [0]%Z) = Ok [0]%Z
  ∧ (∃ d, zero_one_loss [0]%Z [0]%Z = Ok d ∧ (d == 0)%Q)
  ∧ _kuhn_munkres_algorithm (H := exhaustive_solver)
      (PyNdarray [0]%Z) (PyNdarray ((λ x : Z, 1 - x)%Z <$> [0]%Z))
    = Raise (ValueError "x is not in list").
Proof.
  split; [reflexivity|]. split; [|reflexivity].
  eexists. split; [reflexivity|]. reflexivity.
Qed.

(** ** The validation protocol *)


Section protocol.
Context {S K X G : Type}.
Context `{!Dataset X, !Clusterer K X G, !Classifier S X G, !RandomState G}.
Context `{!AssignmentSolver}.


Lemma draw_permutations_perm n labels (g : G) :
  Forall (λ lab, lab ≡ₚ labels) (draw_permutations n labels g).1.
Proof.
  revert g. induction n as [|n IH]; intros g; [constructor|].
  cbn [draw_permutations fst]. constructor; [|apply IH].
  apply np_random_permutation_perm.
Qed.

(** [train] and [test] as one step each: the capabilities are called in
    order, each from the generator state the previous one left. *)
Lemma train_run (g : G) (self : RelativeValidation S K) (train_data : X) :
  let clustered := fit_predict (clust_method self) train_data g in
  let fitted := fit (class_method self) train_data clustered.1.2 clustered.2 in
  let predicted := predict fitted.1 train_data fitted.2 in
  train train_data (g, self)
  = ((misclass ← zero_one_loss clustered.1.2 predicted.1;
      Ok (misclass, fitted.1, clustered.1.2)),
     (predicted.2, {| class_method := fitted.1;
                      clust_method := clustered.1.1;
                      nrand := nrand self |})).
Proof.
  intros clustered fitted predicted.
  unfold train, mbind, py_bind, call_fit_predict, call_fit, model_predict,
    lift, result_bind.
  cbn [class_method clust_method nrand fst snd].
  fold clustered. fold fitted. fold predicted.
  by destruct (zero_one_loss _ _).
Qed.

Lemma test_run (g : G) (self : RelativeValidation S K) (test_data : X)
    (fit_model : S) :
  let clustered := fit_predict (clust_method self) test_data g in
  let predicted := predict fit_model test_data clustered.2 in
  test test_data fit_model (g, self)
  = ((bestperm ← _kuhn_munkres_algorithm (PyNdarray clustered.1.2)
                                         (PyNdarray predicted.1);
      misclass ← zero_one_loss clustered.1.2 bestperm;
      Ok (misclass, clustered.1.2)),
     (predicted.2, {| class_method := class_method self;
                      clust_method := clustered.1.1;
                      nrand := nrand self |})).
Proof.
  intros clustered predicted.
  unfold test, mbind, py_bind, call_fit_predict, model_predict, lift,
    result_bind.
  cbn [class_method clust_method nrand fst snd].
  fold clustered. fold predicted.
  destruct (_kuhn_munkres_algorithm _ _) as [bestperm|e]; [|done].
  by destruct (zero_one_loss _ bestperm).
Qed.

(** The matcher never increases the number of differing samples. *)
Lemma aligned_le_unaligned t p :
  in_universe (nclass t) p →
  matches t p ≤ matches t (index_of (assignment t p) <$> p).
Proof.
  intros Hp. rewrite <-(list_fmap_id p) at 1.
  apply matches_bijection_le; [done|]. split; [done|by intros].
Qed.

(** One round of the loop. *)
Lemma rndlabels_loop_cons train_data test_data test_labels lab shuf atr ats
    (g : G) (self : RelativeValidation S K) :
  let fitted := fit (class_method self) train_data lab g in
  let on_train := predict fitted.1 train_data fitted.2 in
  let on_test := predict fitted.1 test_data on_train.2 in
  let self' := {| class_method := fitted.1;
                  clust_method := clust_method self;
                  nrand := nrand self |} in
  rndlabels_loop train_data test_data test_labels (lab :: shuf) atr ats
                 (g, self)
  = match zero_one_loss lab on_train.1 with
    | Raise e => (Raise e, (on_train.2, self'))
    | Ok tr =>
        match _kuhn_munkres_algorithm (PyNdarray test_labels)
                                      (PyNdarray on_test.1) with
        | Raise e => (Raise e, (on_test.2, self'))
        | Ok bestperm =>
            match zero_one_loss test_labels bestperm with
            | Raise e => (Raise e, (on_test.2, self'))
            | Ok ts =>
                rndlabels_loop train_data test_data test_labels shuf
                  (atr ++ [tr]) (ats ++ [ts]) (on_test.2, self')
            end
        end
    end.
Proof.
  intros fitted on_train on_test self'.
  cbn [rndlabels_loop].
  unfold mbind, py_bind, call_fit, call_predict, lift.
  lazy beta iota zeta. cbn [class_method clust_method nrand fst snd].
  fold fitted. fold on_train. fold on_test. fold self'.
  destruct (zero_one_loss lab _) as [tr|e]; lazy beta iota; [|reflexivity].
  destruct (_kuhn_munkres_algorithm _ _) as [bestperm|e];
    lazy beta iota; [|reflexivity].
  destruct (zero_one_loss test_labels bestperm) as [ts|e];
    lazy beta iota; reflexivity.
Qed.






(** Under the input contract the loop returns. *)
Lemma rndlabels_loop_returns train_data test_data train_labels test_labels
    shuf atr ats (g : G) (self : RelativeValidation S K) :
  0 < n_samples train_data → 0 < n_samples test_data →
  length train_labels = n_samples train_data →
  length test_labels = n_samples test_data →
  (∀ (s : S) (g : G),
     in_universe (nclass test_labels) (predict s test_data g).1) →
  Forall (λ lab, lab ≡ₚ train_labels) shuf →
  ∃ scores,
    (rndlabels_loop train_data test_data test_labels shuf atr ats (g, self)).1
    = Ok scores.
Proof.
  intros Hntr Hnts Htr Hts Huniv Hshuf. revert atr ats g self.
  induction Hshuf as [|lab shuf Hlab _ IH]; intros atr ats g self.
  - by eexists.
  - rewrite rndlabels_loop_cons. lazy zeta.
    rewrite zero_one_loss_ok.
    + rewrite kuhn_munkres_ok by apply Huniv.
      rewrite zero_one_loss_ok; [apply IH| |].
      * by rewrite length_fmap, predict_length.
      * intros ->. cbn in Hts. lia.
    + by rewrite predict_length, Hlab.
    + intros ->. apply Permutation_length in Hlab. cbn in Hlab. lia.
Qed.
End protocol.

Section protocol_claims.
Context {S K X G : Type}.
Context `{!Dataset X, !Clusterer K X G, !Classifier S X G, !RandomState G}.
Context `{!AssignmentSolver}.

(** C5. On at least one sample, [train] returns the triple
    (misclassification rate, fitted classifier, clustering labels): the
    labels are the clusterer's fit-and-predict output on [train_data], the
    model is the classifier fitted on them, and the rate is the plain 0/1
    disagreement (the fraction of differing samples) between the clustering
    labels and the fitted classifier's predictions on the same data, with
    no relabeling. *)
Theorem train_spec (g : G) (self : RelativeValidation S K) (train_data : X) :
  0 < n_samples train_data →
  let clustered := fit_predict (clust_method self) train_data g in
  let clustering_labels := clustered.1.2 in
  let fitted :=
    fit (class_method self) train_data clustering_labels clustered.2 in
  let fitted_model := fitted.1 in
  let classification_labels :=
    (predict fitted_model train_data fitted.2).1 in
  ∃ misclass : Q,
    (train train_data (g, self)).1
    = Ok (misclass, fitted_model, clustering_labels)
    ∧ zero_one_loss clustering_labels classification_labels = Ok misclass
    ∧ (misclass
       == spec_disagreement_rate clustering_labels classification_labels)%Q
    ∧ (misclass
       == inject_Z (Z.of_nat (mismatches clustering_labels
                                         classification_labels))
          / inject_Z (Z.of_nat (n_samples train_data)))%Q
    ∧ class_method (train train_data (g, self)).2.2 = fitted_model
    ∧ clust_method (train train_data (g, self)).2.2 = clustered.1.1.
Proof.
  intros Hn clustered clustering_labels fitted fitted_model
         classification_labels.
  assert (length clustering_labels = n_samples train_data) as Hcl
    by apply fit_predict_length.
  assert (length clustering_labels = length classification_labels) as Hlen.
  { unfold classification_labels. by rewrite predict_length. }
  destruct (zero_one_loss_spec clustering_labels classification_labels)
    as (misclass & Hloss & Hrate); [done| |].
  { intros Hnil. rewrite Hnil in Hcl. cbn in Hcl. lia. }
  exists misclass.
  assert (train train_data (g, self)
          = (Ok (misclass, fitted_model, clustering_labels),
             ((predict fitted_model train_data fitted.2).2,
              {| class_method := fitted_model;
                 clust_method := clustered.1.1;
                 nrand := nrand self |}))) as ->.
  { unfold train, mbind, py_bind, call_fit_predict, call_fit, model_predict,
      lift.
    cbn [class_method clust_method nrand fst snd].
    fold clustered. fold clustering_labels. fold fitted. fold fitted_model.
    fold classification_labels. by rewrite Hloss. }
  split; [done|]. split; [done|]. split; [done|].
  split; [|done].
  rewrite Hrate. unfold spec_disagreement_rate. by rewrite Hcl.
Qed.

(** C3, as amended.  On at least one sample: when the fitted model's
    predictions on [test_data] only use labels in [{0 .. nclass-1}],
    [nclass] being the number of distinct labels of the fresh clustering of
    [test_data], [test] returns the pair made of the 0/1 disagreement (the
    fraction of differing samples) between the fresh clustering labels and
    the predictions aligned to them by the matcher, and of the raw
    clustering labels; otherwise it raises the matcher's [ValueError].  In
    both cases the classifier is not refitted. *)
Theorem test_spec (g : G) (self : RelativeValidation S K) (test_data : X)
    (fit_model : S) :
  0 < n_samples test_data →
  let clustered := fit_predict (clust_method self) test_data g in
  let clustering_labels := clustered.1.2 in
  let classification_labels :=
    (predict fit_model test_data clustered.2).1 in
  let outcome := test test_data fit_model (g, self) in
  (in_universe (nclass clustering_labels) classification_labels →
   ∃ (aligned : list Z) (misclass : Q),
     _kuhn_munkres_algorithm (PyNdarray clustering_labels)
                             (PyNdarray classification_labels) = Ok aligned
     ∧ zero_one_loss clustering_labels aligned = Ok misclass
     ∧ (misclass == spec_disagreement_rate clustering_labels aligned)%Q
     ∧ (misclass
        == inject_Z (Z.of_nat (mismatches clustering_labels aligned))
           / inject_Z (Z.of_nat (n_samples test_data)))%Q
     ∧ outcome.1 = Ok (misclass, clustering_labels))
  ∧ (¬ in_universe (nclass clustering_labels) classification_labels →
     outcome.1 = Raise (ValueError "x is not in list"))
  ∧ class_method outcome.2.2 = class_method self.
Proof.
  intros Hn clustered clustering_labels classification_labels outcome.
  assert (length clustering_labels = n_samples test_data) as Hcl
    by apply fit_predict_length.
  assert (outcome
          = ((bestperm ← _kuhn_munkres_algorithm
                           (PyNdarray clustering_labels)
                           (PyNdarray classification_labels);
              misclass ← zero_one_loss clustering_labels bestperm;
              Ok (misclass, clustering_labels)),
             ((predict fit_model test_data clustered.2).2,
              {| class_method := class_method self;
                 clust_method := clustered.1.1;
                 nrand := nrand self |}))) as Hout.
  { unfold outcome, test, mbind, py_bind, call_fit_predict, model_predict,
      lift, result_bind.
    cbn [class_method clust_method nrand fst snd].
    fold clustered. fold clustering_labels. fold classification_labels.
    destruct (_kuhn_munkres_algorithm _ _) as [bestperm|e]; [|done].
    by destruct (zero_one_loss clustering_labels bestperm). }
  split; [|split].
  - intros Hp. pose proof (kuhn_munkres_ok _ _ Hp) as Hkm.
    set (aligned := index_of _ <$> _) in Hkm.
    destruct (zero_one_loss_spec clustering_labels aligned)
      as (misclass & Hloss & Hrate).
    { unfold aligned, classification_labels.
      by rewrite length_fmap, predict_length. }
    { intros Hnil. rewrite Hnil in Hcl. cbn in Hcl. lia. }
    exists aligned, misclass. do 3 (split; [done|]). split.
    + rewrite Hrate. unfold spec_disagreement_rate. by rewrite Hcl.
    + rewrite Hout, Hkm. cbn [mbind result_bind]. by rewrite Hloss.
  - intros Hp. pose proof (kuhn_munkres_raise _ _ Hp) as Hkm.
    by rewrite Hout, Hkm.
  - by rewrite Hout.
Qed.



(** Under the input contract (one label per sample, at least one sample
    and one round) and when the classifier's predictions on the test data
    lie in the label set of [test_labels], the call returns two numbers. *)
Lemma rndlabels_traineval_returns
    (st : G * RelativeValidation S K)
    (train_data test_data : X) (train_labels test_labels : list Z) :
  0 < n_samples train_data → 0 < n_samples test_data →
  length train_labels = n_samples train_data →
  length test_labels = n_samples test_data →
  (∀ (s : S) (g : G),
     in_universe (nclass test_labels) (predict s test_data g).1) →
  ∃ a b,
    (rndlabels_traineval train_data test_data train_labels test_labels st).1
    = Ok (a, b).
Proof.
  intros Hntr Hnts Htr Hts Huniv. unfold rndlabels_traineval. lazy zeta.
  destruct (rndlabels_loop_returns train_data test_data train_labels
              test_labels
              (draw_permutations (nrand st.2) train_labels
                 (np_random_seed 0)).1 [] []
              (draw_permutations (nrand st.2) train_labels
                 (np_random_seed 0)).2 st.2) as [scores Hsc]; try done.
  { apply draw_permutations_perm. }
  destruct (rndlabels_loop _ _ _ _ [] [] _) as [[sc|e] st1];
    cbn [fst] in *; [|done].
  by eexists _, _.
Qed.

End protocol_claims.

(** ** The protocol on the reference instances *)

Section demo_runs.
Import Demo.

Lemma train_spec_witness :
  0 < n_samples [0; 10; 1; 9]%Z
  ∧ ∃ misclass,
      (train [0; 10; 1; 9]%Z (5, fresh_validator)).1
      = Ok (misclass, [(0, 0); (10, 1); (1, 0); (9, 1)]%Z, [0; 1; 0; 1]%Z)
      ∧ (misclass
         == spec_disagreement_rate [0; 1; 0; 1]%Z [0; 1; 0; 1]%Z)%Q.
Proof.
  split; [vm_compute; lia|].
  destruct (train_spec 5 fresh_validator [0; 10; 1; 9]%Z)
    as (misclass & H1 & _ & H3 & _).
  - vm_compute. lia.
  - exists misclass. split; [exact H1|exact H3].
Defined.

Lemma test_spec_witness :
  0 < n_samples [0; 10; 9]%Z
  ∧ ∃ (aligned : list Z) (misclass : Q),
      _kuhn_munkres_algorithm (PyNdarray [0; 1; 1]%Z) (PyNdarray [1; 0; 0]%Z)
      = Ok aligned
      ∧ (misclass == spec_disagreement_rate [0; 1; 1]%Z aligned)%Q
      ∧ (test [0; 10; 9]%Z [(0, 1); (10, 0)]%Z (5, fresh_validator)).1
        = Ok (misclass, [0; 1; 1]%Z).
Proof.
  split; [vm_compute; lia|].
  destruct (test_spec 5 fresh_validator [0; 10; 9]%Z [(0, 1); (10, 0)]%Z)
    as (H1 & _ & _).
  - vm_compute. lia.
  - destruct H1 as (aligned & misclass & Ha & _ & Hr & _ & Ho).
    + vm_compute. repeat constructor; discriminate.
    + exists aligned, misclass.
      split; [exact Ha|]. split; [exact Hr|exact Ho].
Defined.

(** C3, counterexample: the classifier is trained on [[0; 10]], which the
    clusterer splits into the clusters [0] and [1]; the test data
    [[10; 10]] form a single cluster [0], the classifier predicts the label
    [1] for them, and [test] raises the matcher's [ValueError] instead of
    returning a pair. *)
Lemma test_raises_on_single_cluster :
  (∃ misclass,
     (train [0; 10]%Z (5, fresh_validator)).1
     = Ok (misclass, [(0, 0); (10, 1)]%Z, [0; 1]%Z))
  ∧ (test [10; 10]%Z [(0, 0); (10, 1)]%Z
       (train [0; 10]%Z (5, fresh_validator)).2).1
    = Raise (ValueError "x is not in list").
Proof. split; [by eexists|reflexivity]. Qed.

End demo_runs.

(** * Further properties of the label matcher *)

Section matcher_extras.
Context `{!AssignmentSolver}.

(** What the matcher returns on two arrays, when it returns. *)
Lemma kuhn_munkres_inv t p r :
  _kuhn_munkres_algorithm (PyNdarray t) (PyNdarray p) = Ok r →
  in_universe (nclass t) p ∧ r = index_of (assignment t p) <$> p.
Proof.
  intros Hr. destruct (decide (in_universe (nclass t) p)) as [Hp|Hp].
  - split; [done|]. rewrite kuhn_munkres_ok in Hr by done. by injection Hr.
  - by rewrite kuhn_munkres_raise in Hr.
Qed.

(** Realigning a bijectively relabeled array reaches the same number of
    agreements with the true labels. *)
Lemma matches_relabeled t p σ :
  in_universe (nclass t) p → bijection_on (nclass t) σ →
  matches t (index_of (assignment t (σ <$> p)) <$> (σ <$> p))
  = matches t (index_of (assignment t p) <$> p).
Proof.
  intros Hp Hσ. pose proof (in_universe_fmap _ _ _ Hσ Hp) as Hp'.
  apply Nat.le_antisymm.
  - rewrite <-list_fmap_compose. apply matches_bijection_le; [done|].
    apply bijection_on_compose; [done|].
    apply index_of_bijection, assignment_Permutation.
  - rewrite (Forall_fmap_ext_1 (index_of (assignment t p))
               ((index_of (assignment t p)
                 ∘ index_of (images (nclass t) σ)) ∘ σ) p).
    + rewrite (list_fmap_compose σ). apply matches_bijection_le; [done|].
      apply bijection_on_compose.
      * apply index_of_bijection, images_Permutation, Hσ.
      * apply index_of_bijection, assignment_Permutation.
    + eapply Forall_impl; [exact Hp|]. intros x Hx. cbn.
      by rewrite index_of_images.
Qed.
End matcher_extras.

(** X1. On two arrays the matcher returns a relabeled array exactly when
    every label of [pred_lab] lies in [{0 .. nclass-1}], whatever the
    lengths of the two arrays. *)
Theorem kuhn_munkres_returns_iff `{!AssignmentSolver}
    (true_lab pred_lab : list Z) :
  (∃ r, _kuhn_munkres_algorithm (PyNdarray true_lab) (PyNdarray pred_lab)
        = Ok r)
  ↔ in_universe (nclass true_lab) pred_lab.
Proof.
  split.
  - intros [r Hr]. by apply kuhn_munkres_inv in Hr as [? _].
  - intros Hp. rewrite kuhn_munkres_ok by done. by eexists.
Qed.

Lemma kuhn_munkres_returns_iff_witness :
  ∃ r, _kuhn_munkres_algorithm (H := exhaustive_solver)
         (PyNdarray [0; 1; 1; 0; 1]%Z) (PyNdarray [1; 0; 1]%Z) = Ok r.
Proof.
  apply (kuhn_munkres_returns_iff (H := exhaustive_solver)
           [0; 1; 1; 0; 1]%Z [1; 0; 1]%Z).
  replace (nclass [0; 1; 1; 0; 1]%Z) with 2 by (by vm_compute).
  repeat constructor; lia.
Defined.

(** X2. The array returned by the matcher has the length of [pred_lab] and
    only holds labels of [{0 .. nclass-1}]. *)
Theorem kuhn_munkres_output_range `{!AssignmentSolver}
    (true_lab pred_lab pred_perm : list Z) :
  _kuhn_munkres_algorithm (PyNdarray true_lab) (PyNdarray pred_lab)
  = Ok pred_perm →
  length pred_perm = length pred_lab
  ∧ in_universe (nclass true_lab) pred_perm.
Proof.
  intros [Hp ->]%kuhn_munkres_inv. split; [by rewrite length_fmap|].
  apply Forall_fmap. eapply Forall_impl; [exact Hp|]. intros x Hx. cbn.
  by apply (index_of_bijection _ _ (assignment_Permutation true_lab pred_lab)).
Qed.

Lemma kuhn_munkres_output_range_witness :
  length [0; 0; 1; 1; 2]%Z = length [1; 1; 0; 0; 2]%Z
  ∧ in_universe (nclass [0; 0; 1; 1; 2]%Z) [0; 0; 1; 1; 2]%Z.
Proof.
  apply (kuhn_munkres_output_range (H := exhaustive_solver)
           [0; 0; 1; 1; 2]%Z [1; 1; 0; 0; 2]%Z [0; 0; 1; 1; 2]%Z).
  reflexivity.
Defined.

(** X3. The matcher renames labels one to one: two samples get the same
    label in the returned array exactly when they had the same predicted
    label, so the partition of the samples is kept. *)
Theorem kuhn_munkres_preserves_partition `{!AssignmentSolver}
    (true_lab pred_lab pred_perm : list Z) (s s' : nat) (x x' y y' : Z) :
  _kuhn_munkres_algorithm (PyNdarray true_lab) (PyNdarray pred_lab)
  = Ok pred_perm →
  pred_lab !! s = Some x → pred_lab !! s' = Some x' →
  pred_perm !! s = Some y → pred_perm !! s' = Some y' →
  y = y' ↔ x = x'.
Proof.
  intros [Hp ->]%kuhn_munkres_inv Hx Hx'.
  rewrite !list_lookup_fmap, Hx, Hx'. intros [= <-] [= <-].
  split; [|by intros ->].
  destruct (index_of_bijection _ _ (assignment_Permutation true_lab pred_lab))
    as [_ Hinj].
  apply Hinj.
  - eapply (proj1 (Forall_forall _ _) Hp), list_elem_of_lookup_2, Hx.
  - eapply (proj1 (Forall_forall _ _) Hp), list_elem_of_lookup_2, Hx'.
Qed.

Lemma kuhn_munkres_preserves_partition_witness : 0%Z = 1%Z ↔ 1%Z = 0%Z.
Proof.
  apply (kuhn_munkres_preserves_partition (H := exhaustive_solver)
           [0; 0; 1; 1; 2]%Z [1; 1; 0; 0; 2]%Z [0; 0; 1; 1; 2]%Z 1 2);
    reflexivity.
Defined.

(** X4. When [pred_lab] is [true_lab] with its labels renamed by a
    bijection of [{0 .. nclass-1}], the matcher undoes the renaming and
    returns [true_lab] itself. *)
Theorem kuhn_munkres_recovers_renaming `{!AssignmentSolver}
    (true_lab : list Z) (σ : Z → Z) :
  in_universe (nclass true_lab) true_lab →
  bijection_on (nclass true_lab) σ →
  _kuhn_munkres_algorithm (PyNdarray true_lab) (PyNdarray (σ <$> true_lab))
  = Ok true_lab.
Proof.
  intros Ht Hσ. pose proof (in_universe_fmap _ _ _ Hσ Ht) as Hp.
  rewrite kuhn_munkres_ok by done. f_equal. symmetry.
  apply matches_full; [by rewrite !length_fmap|].
  apply Nat.le_antisymm; [apply matches_le_length|].
  etrans; [|apply (matches_bijection_le true_lab (σ <$> true_lab)
                     (index_of (images (nclass true_lab) σ)));
            [done|apply index_of_bijection, images_Permutation, Hσ]].
  rewrite <-list_fmap_compose.
  rewrite (Forall_fmap_ext_1
             (index_of (images (nclass true_lab) σ) ∘ σ) id true_lab).
  - by rewrite list_fmap_id, matches_refl.
  - eapply Forall_impl; [exact Ht|]. intros x Hx. cbn.
    by rewrite index_of_images.
Qed.

Lemma kuhn_munkres_recovers_renaming_witness :
  _kuhn_munkres_algorithm (H := exhaustive_solver)
    (PyNdarray [0; 0; 1; 2; 1]%Z)
    (PyNdarray ((λ x : Z, 2 - x)%Z <$> [0; 0; 1; 2; 1]%Z))
  = Ok [0; 0; 1; 2; 1]%Z.
Proof.
  apply (kuhn_munkres_recovers_renaming (H := exhaustive_solver)
           [0; 0; 1; 2; 1]%Z (λ x : Z, 2 - x)%Z).
  - replace (nclass [0; 0; 1; 2; 1]%Z) with 3 by (by vm_compute).
    repeat constructor; lia.
  - replace (nclass [0; 0; 1; 2; 1]%Z) with 3 by (by vm_compute).
    split; intros; lia.
Defined.

(** ** The cost matrix *)

Lemma accuracy_score_range a b : (0 <= accuracy_score a b <= 1)%Q.
Proof.
  rewrite accuracy_score_matches.
  pose proof (matches_le_length a b) as Hle.
  assert (matches a b ≤ length (zip a b)) as Hm by apply length_filter.
  destruct (zip a b) as [|e l] eqn:Hz.
  - cbn [length] in Hm. replace (matches a b) with 0 by lia.
    unfold Qdiv. rewrite Qmult_0_l. split; [apply Qle_refl|done].
  - assert (0 < inject_Z (Z.of_nat (length (e :: l))))%Q as Hpos.
    { replace 0%Q with (inject_Z 0) by done. rewrite <-Zlt_Qlt.
      cbn [length]. lia. }
    split.
    + apply Qle_shift_div_l; [done|]. rewrite Qmult_0_l.
      replace 0%Q with (inject_Z 0) by done. rewrite <-Zle_Qle. lia.
    + apply Qle_shift_div_r; [done|]. rewrite Qmult_1_l, <-Zle_Qle. lia.
Qed.

Lemma pair_count_swap t p i j :
  pair_count (zip p t) j i = pair_count (zip t p) i j.
Proof.
  unfold pair_count. revert p. induction t as [|x t IH]; intros [|y p]; try done.
  change (zip (y :: p) (x :: t)) with ((y, x) :: zip p t).
  change (zip (x :: t) (y :: p)) with ((x, y) :: zip t p).
  rewrite !filter_cons. cbn [fst snd]. specialize (IH p).
  repeat case_decide; cbn [length]; try (by rewrite IH); exfalso; naive_solver.
Qed.

Lemma square_ext n (m m' : list (list Q)) :
  is_square n m → is_square n m' →
  (∀ i j, i < n → j < n → mget m i j = mget m' i j) → m = m'.
Proof.
  intros [Hlen Hrows] [Hlen' Hrows'] Hget. apply list_eq. intros i.
  destruct (decide (i < n)) as [Hi|Hi].
  - destruct (lookup_lt_is_Some_2 m i) as [row Hrow]; [lia|].
    destruct (lookup_lt_is_Some_2 m' i) as [row' Hrow']; [lia|].
    rewrite Hrow, Hrow'. f_equal.
    assert (length row = n) as Hr
      by (eapply (proj1 (Forall_forall _ _) Hrows), list_elem_of_lookup_2, Hrow).
    assert (length row' = n) as Hr'
      by (eapply (proj1 (Forall_forall _ _) Hrows'), list_elem_of_lookup_2, Hrow').
    apply list_eq. intros j. destruct (decide (j < n)) as [Hj|Hj].
    + specialize (Hget i j Hi Hj). unfold mget in Hget.
      by rewrite Hrow, Hrow' in Hget.
    + by rewrite !lookup_ge_None_2 by lia.
  - by rewrite !lookup_ge_None_2 by lia.
Qed.

(** X6. Swapping the roles of two equal-length labelings with the same
    number of distinct labels transposes the cost matrix. *)
Theorem cost_matrix_transpose (true_lab pred_lab : list Z) (i j : nat) :
  length true_lab = length pred_lab →
  nclass true_lab = nclass pred_lab →
  i < nclass true_lab → j < nclass true_lab →
  mget (cost_matrix pred_lab true_lab) j i
  = mget (cost_matrix true_lab pred_lab) i j.
Proof.
  intros Hlen Hn Hi Hj. unfold nclass in *.
  rewrite !cost_matrix_entry by lia.
  by rewrite !n_intersec_pair_count, pair_count_swap, Hlen.
Qed.

Lemma cost_matrix_transpose_witness :
  mget (cost_matrix [1; 1; 0; 1]%Z [0; 0; 1; 1]%Z) 0 1
  = mget (cost_matrix [0; 0; 1; 1]%Z [1; 1; 0; 1]%Z) 1 0.
Proof.
  apply (cost_matrix_transpose [0; 0; 1; 1]%Z [1; 1; 0; 1]%Z 1 0);
    vm_compute; (reflexivity || lia).
Defined.

(** X7. The cost matrix only depends on how many samples carry each pair
    of labels: reordering the samples of both arrays in the same way
    leaves it unchanged. *)
Theorem cost_matrix_sample_order (true_lab pred_lab true_lab' pred_lab' : list Z) :
  length true_lab = length pred_lab →
  length true_lab' = length pred_lab' →
  zip true_lab pred_lab ≡ₚ zip true_lab' pred_lab' →
  cost_matrix true_lab' pred_lab' = cost_matrix true_lab pred_lab.
Proof.
  intros Hlen Hlen' Hperm.
  assert (true_lab ≡ₚ true_lab') as Ht.
  { rewrite <-(fst_zip true_lab pred_lab), <-(fst_zip true_lab' pred_lab')
      by lia. by rewrite Hperm. }
  assert (size (pyset true_lab') = size (pyset true_lab)) as Hn.
  { unfold pyset. by rewrite Ht. }
  assert (length true_lab' = length true_lab) as Hl by (by rewrite Ht).
  apply (square_ext (size (pyset true_lab))).
  - rewrite <-Hn. apply cost_matrix_square.
  - apply cost_matrix_square.
  - intros i j Hi Hj. rewrite !cost_matrix_entry by lia.
    rewrite !n_intersec_pair_count, Hl. unfold pair_count.
    by rewrite Hperm.
Qed.

Lemma cost_matrix_sample_order_witness :
  cost_matrix [1; 0; 0]%Z [1; 0; 1]%Z = cost_matrix [0; 0; 1]%Z [0; 1; 1]%Z.
Proof.
  apply (cost_matrix_sample_order [0; 0; 1]%Z [0; 1; 1]%Z
           [1; 0; 0]%Z [1; 0; 1]%Z); [reflexivity..|].
  symmetry. exact (Permutation_cons_append [(0, 0); (0, 1)]%Z (1, 1)%Z).
Defined.

(** ** Realignment and symmetry *)

Lemma images_index_of n σ (x : Z) :
  bijection_on n σ → (0 ≤ x < Z.of_nat n)%Z →
  σ (index_of (images n σ) x) = x.
Proof.
  intros Hσ Hx. pose proof (images_Permutation n σ Hσ) as HL.
  destruct (index_of_lookup n _ x HL Hx) as (k & _ & -> & Hk & Hkn).
  unfold images in Hk. rewrite list_lookup_fmap, lookup_seq_lt in Hk by done.
  cbn in Hk. destruct Hσ as [Hran _].
  pose proof (Hran (Z.of_nat k)). injection Hk. lia.
Qed.

(** Counting agreements from the other side, through the inverse
    renaming. *)
Lemma matches_swap n (σ σ' : Z → Z) t p :
  (∀ x y : Z, (0 ≤ x < Z.of_nat n)%Z → (0 ≤ y < Z.of_nat n)%Z →
     x = σ y ↔ y = σ' x) →
  in_universe n t → in_universe n p →
  matches t (σ <$> p) = matches p (σ' <$> t).
Proof.
  intros Hinv Ht. rewrite !matches_fmap. revert p.
  induction Ht as [|x t Hx Ht IH]; intros p Hp.
  - by destruct p.
  - destruct Hp as [|y p Hy Hp]; [done|].
    change (zip (x :: t) (y :: p)) with ((x, y) :: zip t p).
    change (zip (y :: p) (x :: t)) with ((y, x) :: zip p t).
    rewrite !filter_cons. cbn [fst snd]. specialize (IH p Hp).
    pose proof (Hinv x y Hx Hy).
    repeat case_decide; cbn [length]; try (by rewrite IH); exfalso; tauto.
Qed.

(** X8. Aligning an array that the matcher has already aligned leaves the
    disagreement rate unchanged: the two arrays differ from [true_lab] on
    the same number of samples, [zero_one_loss] has the same outcome on
    both, and on at least one sample that outcome is a rate. *)
Theorem kuhn_munkres_realign `{!AssignmentSolver}
    (true_lab pred_lab : list Z) :
  length true_lab = length pred_lab →
  in_universe (nclass true_lab) pred_lab →
  ∃ r r' : list Z,
    _kuhn_munkres_algorithm (PyNdarray true_lab) (PyNdarray pred_lab) = Ok r
    ∧ _kuhn_munkres_algorithm (PyNdarray true_lab) (PyNdarray r) = Ok r'
    ∧ mismatches true_lab r = mismatches true_lab r'
    ∧ same_loss (zero_one_loss true_lab r) (zero_one_loss true_lab r')
    ∧ (true_lab ≠ [] →
       ∃ d d' : Q,
         zero_one_loss true_lab r = Ok d
         ∧ zero_one_loss true_lab r' = Ok d'
         ∧ (d == d')%Q).
Proof.
  intros Hlen Hp.
  pose proof (index_of_bijection _ _
                (assignment_Permutation true_lab pred_lab)) as Hτ.
  set (τ := index_of (assignment true_lab pred_lab)) in *.
  pose proof (in_universe_fmap _ _ _ Hτ Hp) as Hr.
  exists (τ <$> pred_lab),
    (index_of (assignment true_lab (τ <$> pred_lab)) <$> (τ <$> pred_lab)).
  split; [by apply kuhn_munkres_ok|].
  split; [by apply kuhn_munkres_ok|].
  apply same_loss_of_matches; [by rewrite length_fmap|
                               by rewrite !length_fmap|done|].
  symmetry. by apply matches_relabeled.
Qed.

Lemma kuhn_munkres_realign_witness :
  ∃ (r r' : list Z) (d d' : Q),
    _kuhn_munkres_algorithm (H := exhaustive_solver)
      (PyNdarray [0; 0; 1; 1; 2]%Z) (PyNdarray [1; 2; 0; 0; 1]%Z) = Ok r
    ∧ _kuhn_munkres_algorithm (H := exhaustive_solver)
        (PyNdarray [0; 0; 1; 1; 2]%Z) (PyNdarray r) = Ok r'
    ∧ zero_one_loss [0; 0; 1; 1; 2]%Z r = Ok d
    ∧ zero_one_loss [0; 0; 1; 1; 2]%Z r' = Ok d'
    ∧ (d == d')%Q.
Proof.
  destruct (kuhn_munkres_realign (H := exhaustive_solver)
              [0; 0; 1; 1; 2]%Z [1; 2; 0; 0; 1]%Z)
    as (r & r' & H1 & H2 & _ & _ & H3).
  - reflexivity.
  - replace (nclass [0; 0; 1; 1; 2]%Z) with 3 by (by vm_compute).
    repeat constructor; lia.
  - destruct (H3 ltac:(discriminate)) as (d & d' & H4 & H5 & H6).
    exists r, r', d, d'.
    split; [exact H1|]. split; [exact H2|]. split; [exact H4|].
    split; [exact H5|exact H6].
Defined.

(** X9. For two equal-length labelings over the same label set
    [{0 .. nclass-1}], matching the second to the first and matching the
    first to the second give the same disagreement rate: the same number
    of differing samples, the same outcome of [zero_one_loss], which is a
    rate on at least one sample. *)
Theorem kuhn_munkres_symmetric `{!AssignmentSolver} (a b : list Z) :
  length a = length b →
  nclass a = nclass b →
  in_universe (nclass a) a →
  in_universe (nclass a) b →
  ∃ r r' : list Z,
    _kuhn_munkres_algorithm (PyNdarray a) (PyNdarray b) = Ok r
    ∧ _kuhn_munkres_algorithm (PyNdarray b) (PyNdarray a) = Ok r'
    ∧ mismatches a r = mismatches b r'
    ∧ same_loss (zero_one_loss a r) (zero_one_loss b r')
    ∧ (a ≠ [] →
       ∃ d d' : Q,
         zero_one_loss a r = Ok d
         ∧ zero_one_loss b r' = Ok d'
         ∧ (d == d')%Q).
Proof.
  intros Hlen Hn Ha Hb.
  assert (∀ t p, nclass t = nclass p →
            in_universe (nclass t) t → in_universe (nclass t) p →
            matches t (index_of (assignment t p) <$> p)
            ≤ matches p (index_of (assignment p t) <$> t)) as Hle.
  { intros t p Htp Ht Hp.
    pose proof (index_of_bijection _ _ (assignment_Permutation t p)) as Hτ.
    set (τ := index_of (assignment t p)) in *.
    rewrite (matches_swap (nclass t) τ (index_of (images (nclass t) τ)) t p);
      [|intros x y Hx Hy; split; intros ->|done|done].
    - apply matches_bijection_le; rewrite <-Htp; [done|].
      apply index_of_bijection, images_Permutation, Hτ.
    - by rewrite index_of_images.
    - by rewrite images_index_of. }
  exists (index_of (assignment a b) <$> b), (index_of (assignment b a) <$> a).
  split; [by apply kuhn_munkres_ok|].
  split; [apply kuhn_munkres_ok; by rewrite <-Hn|].
  apply same_loss_of_matches; [by rewrite length_fmap|
                               by rewrite length_fmap|done|].
  apply Nat.le_antisymm; apply Hle; try done; by rewrite <-?Hn.
Qed.

Lemma kuhn_munkres_symmetric_witness :
  ∃ (r r' : list Z) (d d' : Q),
    _kuhn_munkres_algorithm (H := exhaustive_solver)
      (PyNdarray [0; 0; 1; 1; 2]%Z) (PyNdarray [1; 2; 0; 0; 1]%Z) = Ok r
    ∧ _kuhn_munkres_algorithm (H := exhaustive_solver)
        (PyNdarray [1; 2; 0; 0; 1]%Z) (PyNdarray [0; 0; 1; 1; 2]%Z) = Ok r'
    ∧ zero_one_loss [0; 0; 1; 1; 2]%Z r = Ok d
    ∧ zero_one_loss [1; 2; 0; 0; 1]%Z r' = Ok d'
    ∧ (d == d')%Q.
Proof.
  destruct (kuhn_munkres_symmetric (H := exhaustive_solver)
              [0; 0; 1; 1; 2]%Z [1; 2; 0; 0; 1]%Z)
    as (r & r' & H1 & H2 & _ & _ & H3).
  - reflexivity.
  - by vm_compute.
  - replace (nclass [0; 0; 1; 1; 2]%Z) with 3 by (by vm_compute).
    repeat constructor; lia.
  - replace (nclass [0; 0; 1; 1; 2]%Z) with 3 by (by vm_compute).
    repeat constructor; lia.
  - destruct (H3 ltac:(discriminate)) as (d & d' & H4 & H5 & H6).
    exists r, r', d, d'.
    split; [exact H1|]. split; [exact H2|]. split; [exact H4|].
    split; [exact H5|exact H6].
Defined.

(** * Further properties of the validation protocol *)

Section protocol_extras.
Context {S K X G : Type}.
Context `{!Dataset X, !Clusterer K X G, !Classifier S X G, !RandomState G}.
Context `{!AssignmentSolver}.

(** X10. On at least one sample, the rate returned by [test] is never
    larger than the plain, unaligned disagreement rate between the fresh
    clustering labels and the classifier's predictions (the aligned
    predictions differ from the clustering labels on no more samples than
    the raw ones), and it is not negative. *)
Theorem test_rate_le_unaligned (g : G) (self : RelativeValidation S K)
    (test_data : X) (fit_model : S) :
  0 < n_samples test_data →
  let clustered := fit_predict (clust_method self) test_data g in
  let clustering_labels := clustered.1.2 in
  let classification_labels :=
    (predict fit_model test_data clustered.2).1 in
  in_universe (nclass clustering_labels) classification_labels →
  ∃ (aligned : list Z) (misclass unaligned : Q),
    _kuhn_munkres_algorithm (PyNdarray clustering_labels)
                            (PyNdarray classification_labels) = Ok aligned
    ∧ mismatches clustering_labels aligned
      ≤ mismatches clustering_labels classification_labels
    ∧ (test test_data fit_model (g, self)).1
      = Ok (misclass, clustering_labels)
    ∧ (misclass == spec_disagreement_rate clustering_labels aligned)%Q
    ∧ zero_one_loss clustering_labels classification_labels = Ok unaligned
    ∧ (unaligned
       == spec_disagreement_rate clustering_labels classification_labels)%Q
    ∧ (0 <= misclass)%Q
    ∧ (misclass <= unaligned)%Q.
Proof.
  intros Hn clustered clustering_labels classification_labels Hp.
  pose proof (kuhn_munkres_ok _ _ Hp) as Hkm.
  pose proof (aligned_le_unaligned _ _ Hp) as Hm.
  set (aligned := index_of _ <$> _) in Hkm, Hm.
  assert (length clustering_labels = length classification_labels) as Hlen.
  { unfold clustering_labels, classification_labels, clustered.
    by rewrite fit_predict_length, predict_length. }
  assert (clustering_labels ≠ []) as Hne.
  { intros Hnil.
    pose proof (fit_predict_length (clust_method self) test_data g) as Hl.
    fold clustered in Hl. fold clustering_labels in Hl.
    rewrite Hnil in Hl. cbn in Hl. lia. }
  destruct (zero_one_loss_spec clustering_labels aligned)
    as (misclass & Hloss & Hrate);
    [unfold aligned; by rewrite length_fmap|done|].
  destruct (zero_one_loss_spec clustering_labels classification_labels)
    as (unaligned & Hloss' & Hrate'); [done|done|].
  exists aligned, misclass, unaligned. split; [done|]. split.
  { pose proof (matches_mismatches clustering_labels aligned) as H1.
    pose proof (matches_mismatches clustering_labels classification_labels)
      as H2.
    rewrite length_zip in H1, H2. unfold aligned in H1 at 3.
    rewrite length_fmap in H1. lia. }
  split.
  { rewrite test_run. cbn [fst]. fold clustered. fold clustering_labels.
    fold classification_labels. rewrite Hkm. cbn [mbind result_bind].
    by rewrite Hloss. }
  do 3 (split; [done|]).
  apply zero_one_loss_inv in Hloss as (_ & _ & ->).
  apply zero_one_loss_inv in Hloss' as (_ & _ & ->).
  split.
  - destruct (accuracy_score_range clustering_labels aligned) as [_ Hhi].
    apply Qle_minus_iff in Hhi. unfold Qminus. exact Hhi.
  - apply loss_le_of_matches; [unfold aligned; by rewrite length_fmap|done].
Qed.

(** X12. Training a validator on at least one sample and then testing it
    on the same data with the returned model, for a clusterer whose labels
    depend on the data only and a classifier whose predictions depend on
    the model and the data only: [test] sees the same clustering labels
    and returns a rate that is at most the rate returned by [train]. *)
Theorem train_then_test_same_data (g : G) (s : S) (c : K) (n : nat)
    (data : X) :
  0 < n_samples data →
  (∀ (k k' : K) (d : X) (g g' : G),
     (fit_predict k d g).1.2 = (fit_predict k' d g').1.2) →
  (∀ (m : S) (d : X) (g g' : G), (predict m d g).1 = (predict m d g').1) →
  let clustered := fit_predict c data g in
  let labels := clustered.1.2 in
  let fitted := fit s data labels clustered.2 in
  let predictions := (predict fitted.1 data fitted.2).1 in
  in_universe (nclass labels) predictions →
  ∃ misclass_tr misclass_ts : Q,
    (train data (g, __init__ s c n)).1 = Ok (misclass_tr, fitted.1, labels)
    ∧ (test data fitted.1 (train data (g, __init__ s c n)).2).1
      = Ok (misclass_ts, labels)
    ∧ (misclass_tr == spec_disagreement_rate labels predictions)%Q
    ∧ (misclass_ts <= misclass_tr)%Q.
Proof.
  intros Hn Hclust Hpred clustered labels fitted predictions Hp.
  assert (length labels = length predictions) as Hlen.
  { unfold labels, predictions, clustered.
    by rewrite fit_predict_length, predict_length. }
  assert (labels ≠ []) as Hne.
  { intros Hnil. pose proof (fit_predict_length c data g) as Hl.
    fold clustered in Hl. fold labels in Hl.
    rewrite Hnil in Hl. cbn in Hl. lia. }
  pose proof (kuhn_munkres_ok _ _ Hp) as Hkm.
  pose proof (aligned_le_unaligned _ _ Hp) as Hm.
  set (aligned := index_of _ <$> _) in Hkm, Hm.
  destruct (zero_one_loss_spec labels predictions Hlen Hne)
    as (misclass_tr & Htr & Hrate).
  destruct (zero_one_loss_spec labels aligned)
    as (misclass_ts & Hts & _);
    [unfold aligned; by rewrite length_fmap|done|].
  exists misclass_tr, misclass_ts.
  rewrite train_run. unfold __init__. cbn [fst snd class_method clust_method].
  fold clustered. fold labels. fold fitted. fold predictions.
  rewrite Htr. cbn [mbind result_bind]. split; [done|].
  split.
  { rewrite test_run. cbn [fst class_method clust_method].
    rewrite (Hclust _ c _ _ g). fold clustered. fold labels.
    rewrite (Hpred fitted.1 data _ fitted.2). fold predictions.
    rewrite Hkm. cbn [mbind result_bind]. by rewrite Hts. }
  split; [done|].
  apply zero_one_loss_inv in Htr as (_ & _ & ->).
  apply zero_one_loss_inv in Hts as (_ & _ & ->).
  apply loss_le_of_matches; [unfold aligned; by rewrite length_fmap|done].
Qed.
End protocol_extras.

Section demo_extras.
Import Demo.

Lemma test_rate_le_unaligned_witness :
  0 < n_samples [0; 10; 9]%Z
  ∧ ∃ misclass unaligned : Q,
      (test [0; 10; 9]%Z [(0, 1); (10, 0)]%Z (5, fresh_validator)).1
      = Ok (misclass, [0; 1; 1]%Z)
      ∧ zero_one_loss [0; 1; 1]%Z [1; 0; 0]%Z = Ok unaligned
      ∧ (0 <= misclass)%Q
      ∧ (misclass <= unaligned)%Q.
Proof.
  split; [vm_compute; lia|].
  destruct (test_rate_le_unaligned 5 fresh_validator [0; 10; 9]%Z
              [(0, 1); (10, 0)]%Z)
    as (aligned & m & u & _ & _ & H1 & _ & H2 & _ & H3 & H4).
  - vm_compute. lia.
  - vm_compute. repeat constructor; discriminate.
  - exists m, u. split; [exact H1|]. split; [exact H2|].
    split; [exact H3|exact H4].
Defined.

Lemma train_then_test_same_data_witness :
  0 < n_samples [0; 10; 1; 9]%Z
  ∧ ∃ misclass_tr misclass_ts : Q,
      (train [0; 10; 1; 9]%Z (5, __init__ [] () 3)).1
      = Ok (misclass_tr, [(0, 0); (10, 1); (1, 0); (9, 1)]%Z, [0; 1; 0; 1]%Z)
      ∧ (test [0; 10; 1; 9]%Z [(0, 0); (10, 1); (1, 0); (9, 1)]%Z
           (train [0; 10; 1; 9]%Z (5, __init__ [] () 3)).2).1
        = Ok (misclass_ts, [0; 1; 0; 1]%Z)
      ∧ (misclass_ts <= misclass_tr)%Q.
Proof.
  split; [vm_compute; lia|].
  destruct (train_then_test_same_data 5 ([] : list (Z * Z)) () 3
              [0; 10; 1; 9]%Z) as (mtr & mts & H1 & H2 & _ & H3).
  - vm_compute. lia.
  - reflexivity.
  - reflexivity.
  - vm_compute. repeat constructor; discriminate.
  - exists mtr, mts. split; [exact H1|]. split; [exact H2|exact H3].
Defined.
End demo_extras.

(** ** A zero training rate *)

Lemma mismatches_zero_iff a b :
  length a = length b → mismatches a b = 0 ↔ a = b.
Proof.
  intros Hlen. pose proof (matches_mismatches a b) as Hsum.
  rewrite length_zip, <-Hlen, Nat.min_id in Hsum. split.
  - intros Hz. apply matches_full; [done|lia].
  - intros <-. rewrite matches_refl in Hsum. lia.
Qed.

Lemma spec_disagreement_rate_zero a b :
  a ≠ [] → (spec_disagreement_rate a b == 0)%Q ↔ mismatches a b = 0.
Proof.
  intros Hne. unfold spec_disagreement_rate.
  assert (0 < inject_Z (Z.of_nat (length a)))%Q as Hpos.
  { replace 0%Q with (inject_Z 0) by done. rewrite <-Zlt_Qlt.
    destruct a; [done|cbn [length]; lia]. }
  split.
  - intros Heq. destruct (decide (mismatches a b = 0)) as [|Hm]; [done|].
    exfalso. apply (Qlt_irrefl 0). rewrite <-Heq at 2.
    apply Qlt_shift_div_l; [done|]. rewrite Qmult_0_l.
    replace 0%Q with (inject_Z 0) by done. rewrite <-Zlt_Qlt. lia.
  - intros ->. unfold Qdiv. by rewrite Qmult_0_l.
Qed.

Section train_extras.
Context {S K X G : Type}.
Context `{!Dataset X, !Clusterer K X G, !Classifier S X G}.

(** X13. On at least one sample, the rate returned by [train] is zero
    exactly when the fitted classifier reproduces the clustering labels on
    the training data. *)
Theorem train_zero_iff (g : G) (self : RelativeValidation S K)
    (train_data : X) :
  0 < n_samples train_data →
  let clustered := fit_predict (clust_method self) train_data g in
  let labels := clustered.1.2 in
  let fitted := fit (class_method self) train_data labels clustered.2 in
  ∃ misclass : Q,
    (train train_data (g, self)).1 = Ok (misclass, fitted.1, labels)
    ∧ ((misclass == 0)%Q
       ↔ (predict fitted.1 train_data fitted.2).1 = labels).
Proof.
  intros Hn clustered labels fitted.
  assert (length labels = length (predict fitted.1 train_data fitted.2).1)
    as Hlen.
  { unfold labels, clustered.
    by rewrite fit_predict_length, predict_length. }
  assert (labels ≠ []) as Hne.
  { intros Hnil.
    pose proof (fit_predict_length (clust_method self) train_data g) as Hl.
    fold clustered in Hl. fold labels in Hl.
    rewrite Hnil in Hl. cbn in Hl. lia. }
  destruct (zero_one_loss_spec labels _ Hlen Hne) as (d & Hd & Heq).
  exists d. split.
  - rewrite train_run. cbn [fst]. fold clustered. fold labels. fold fitted.
    by rewrite Hd.
  - rewrite Heq, spec_disagreement_rate_zero, mismatches_zero_iff by done.
    split; intros Hsame; by symmetry.
Qed.
End train_extras.

Section demo_train.
Import Demo.

Lemma train_zero_iff_witness :
  0 < n_samples [0; 10; 1; 9]%Z
  ∧ ∃ misclass : Q,
      (train [0; 10; 1; 9]%Z (5, fresh_validator)).1
      = Ok (misclass, [(0, 0); (10, 1); (1, 0); (9, 1)]%Z, [0; 1; 0; 1]%Z)
      ∧ ((misclass == 0)%Q
         ↔ (predict [(0, 0); (10, 1); (1, 0); (9, 1)]%Z [0; 10; 1; 9]%Z 5).1
           = [0; 1; 0; 1]%Z).
Proof.
  split; [vm_compute; lia|].
  destruct (train_zero_iff 5 fresh_validator [0; 10; 1; 9]%Z)
    as (misclass & H1 & H2).
  - vm_compute. lia.
  - exists misclass. split; [exact H1|exact H2].
Defined.
End demo_train.
